(** * osbuild build roots: a shallow embedding of [osbuild/buildroot.py]

    The module under study maintains the file-system environment in which
    osbuild modules run.  [BuildRoot] is a context manager: entering it
    creates two temporary directories, mounts a tmpfs on the first, fills
    it with six device nodes and enters the registered API endpoints;
    leaving it unwinds an [ExitStack].  [BuildRoot.run] composes a
    [bwrap] command line, spawns it and streams its output.

    The embedding is a state-and-exception monad over three components:
    the [BuildRoot] object, the heap of [ExitStack] objects it refers to,
    and the host (file system, tmpfs mounts, behaviour of system calls and
    child processes, and a trace of the effects performed so far). *)

From stdpp Require Import base option list strings gmap fin_maps.
From Stdlib Require Import ZArith Lia Ascii.

Local Open Scope string_scope.
Local Open Scope list_scope.
Local Open Scope Z_scope.

(** ** Strings and paths *)

Module Path.

Definition sep : ascii := "/"%char.

(** [posixpath.join(a, b)] for one extra component. *)
Definition ends_with_sep (s : string) : bool :=
  match rev (String.list_ascii_of_string s) with
  | c :: _ => Ascii.eqb c sep
  | [] => false
  end.

Definition starts_with_sep (s : string) : bool :=
  match s with
  | String c _ => Ascii.eqb c sep
  | EmptyString => false
  end.

Definition join (a b : string) : string :=
  if starts_with_sep b then b
  else if (String.eqb a "" || ends_with_sep a)%bool then a +:+ b
  else a +:+ "/" +:+ b.

(** [posixpath.dirname(p)]: everything up to the last slash, with the
    trailing slashes removed unless the head consists of slashes only. *)
Fixpoint drop_slashes (r : list ascii) : list ascii :=
  match r with
  | c :: r' => if Ascii.eqb c sep then drop_slashes r' else r
  | [] => []
  end.

Fixpoint drop_basename (r : list ascii) : list ascii :=
  match r with
  | c :: r' => if Ascii.eqb c sep then r else drop_basename r'
  | [] => []
  end.

Definition dirname (p : string) : string :=
  let head := drop_basename (rev (String.list_ascii_of_string p)) in
  match drop_slashes head with
  | [] => String.string_of_list_ascii (rev head)
  | stripped => String.string_of_list_ascii (rev stripped)
  end.

(** [under d p]: [p] is [d] itself or lies below it. *)
Definition under (d p : string) : bool :=
  (String.eqb d p || String.prefix (d +:+ "/") p)%bool.

End Path.

(** [str.split(sep)] for a one-character separator: every occurrence of
    the separator cuts, so the result has one more field than there are
    separators. *)
Fixpoint split (sep : ascii) (s : string) : list string :=
  match s with
  | EmptyString => [""]
  | String c r =>
      if Ascii.eqb c sep then "" :: split sep r
      else match split sep r with
           | h :: t => String c h :: t
           | [] => [String c ""]
           end
  end.

Fixpoint contains (sep : ascii) (s : string) : bool :=
  match s with
  | EmptyString => false
  | String c r => (Ascii.eqb c sep || contains sep r)%bool
  end.

(** ** Device numbers and file modes *)

Module Stat.

Definition S_IFCHR : Z := 0x2000.
Definition S_IFMT (mode : Z) : Z := Z.land mode 0xF000.
Definition S_IMODE (mode : Z) : Z := Z.land mode 0xFFF.
Definition S_ISCHR (mode : Z) : bool := S_IFMT mode =? S_IFCHR.

(** [os.makedev], [os.major] and [os.minor] as glibc computes them. *)
Definition makedev (major minor : Z) : Z :=
  Z.lor (Z.lor (Z.shiftl (Z.land major 0xFFFFF000) 32)
               (Z.shiftl (Z.land major 0x00000FFF) 8))
        (Z.lor (Z.shiftl (Z.land minor 0xFFFFFF00) 12)
               (Z.land minor 0x000000FF)).

Definition major (dev : Z) : Z :=
  Z.lor (Z.shiftr (Z.land dev 0xFFFFF00000000000) 32)
        (Z.shiftr (Z.land dev 0x00000000000FFF00) 8).

Definition minor (dev : Z) : Z :=
  Z.lor (Z.shiftr (Z.land dev 0x00000FFFFFF00000) 12)
        (Z.land dev 0x00000000000000FF).

End Stat.

(** ** Text: bytes, code points and strict UTF-8 decoding *)

Module Utf8.

Definition bytes := list Z.
Definition text := list Z.

Definition cont (b : Z) : bool := (0x80 <=? b) && (b <=? 0xBF).
Definition within (lo hi b : Z) : bool := (lo <=? b) && (b <=? hi).
Definition low6 (b : Z) : Z := Z.land b 0x3F.

(** [bytes.decode("utf-8")] in strict mode: [None] stands for
    [UnicodeDecodeError].  Overlong forms, surrogates, code points above
    U+10FFFF and truncated sequences are all rejected. *)
Fixpoint decode (bs : bytes) : option text :=
  match bs with
  | [] => Some []
  | b0 :: r0 =>
      if within 0x00 0x7F b0 then
        cons b0 <$> decode r0
      else if within 0xC2 0xDF b0 then
        match r0 with
        | b1 :: r1 =>
            if cont b1
            then cons (Z.lor (Z.shiftl (Z.land b0 0x1F) 6) (low6 b1)) <$> decode r1
            else None
        | _ => None
        end
      else if within 0xE0 0xEF b0 then
        match r0 with
        | b1 :: b2 :: r2 =>
            if within (if b0 =? 0xE0 then 0xA0 else 0x80)
                      (if b0 =? 0xED then 0x9F else 0xBF) b1 && cont b2
            then cons (Z.lor (Z.shiftl (Z.land b0 0x0F) 12)
                             (Z.lor (Z.shiftl (low6 b1) 6) (low6 b2)))
                   <$> decode r2
            else None
        | _ => None
        end
      else if within 0xF0 0xF4 b0 then
        match r0 with
        | b1 :: b2 :: b3 :: r3 =>
            if within (if b0 =? 0xF0 then 0x90 else 0x80)
                      (if b0 =? 0xF4 then 0x8F else 0xBF) b1
               && cont b2 && cont b3
            then cons (Z.lor (Z.shiftl (Z.land b0 0x07) 18)
                             (Z.lor (Z.shiftl (low6 b1) 12)
                                    (Z.lor (Z.shiftl (low6 b2) 6) (low6 b3))))
                   <$> decode r3
            else None
        | _ => None
        end
      else None
  end.

End Utf8.

(** ** Exceptions *)

Inductive errno := EPERM | ENOENT | EEXIST | ENOTDIR | EBUSY.

Inductive exn :=
| AttributeError (msg : string)
| RuntimeError (msg : string)
| TypeError (msg : string)
| OSError (code : errno) (path : string)
| CalledProcessError (cmd : list string)
| UnicodeDecodeError
| EndpointError (name : string).

(** ** The host *)

(** What [lstat] reports for a path.  A symbolic link carries the absolute
    path it leads to. *)
Inductive inode :=
| IDir
| IReg
| ILnk (target : string)
| IChr (mode device : Z).

(** An entry of a mounted tmpfs, as created by [os.mknod]: the [mode] and
    [device] arguments are recorded as they were passed. *)
Record devnode := { n_name : string; n_mode : Z; n_device : Z }.

(** System calls and helper programs that the host may refuse. *)
Inductive syscall :=
| SysMakedirs (path : string)
| SysMkdtemp (dir : string)
| SysMount (target : string)
| SysUmount (target : string)
| SysMknod (path : string)
| SysRmtree (path : string).

(** A child process as its parent sees it: the results of the successive
    [os.read] calls on its output pipe up to the end of the stream, what
    [communicate()] still returns afterwards, and the exit status. *)
Record child := {
  reads : list Utf8.bytes;
  rest : Utf8.bytes;
  status : Z }.

(** An API endpoint: the two attributes [run] uses, and whether entering
    and leaving its context succeed. *)
Record api := {
  endpoint : string;
  socket_address : string;
  enter_ok : bool;
  exit_ok : bool }.

Inductive event :=
| EvMakedirs (path : string)
| EvMkdtemp (path : string)
| EvMount (target : string)
| EvMknod (path : string) (mode device : Z)
| EvEnter (name : string)
| EvUmount (target : string)
| EvRmtree (path : string)
| EvExit (name : string)
| EvSpawn (cmd : list string)
| EvLog (txt : Utf8.text).

(** The host: the file system by absolute path; the tmpfs instances by
    mount point, each with the nodes made in it; the names [tempfile] will
    draw; the calls the kernel refuses; the file mode creation mask of the
    process, which nothing in the module sets; where the installed
    [osbuild] module comes from ([find_spec("osbuild").origin]); what a
    spawned command does; and the effects performed so far, oldest
    first. *)
Record host := {
  h_fs : gmap string inode;
  h_tmpfs : gmap string (list devnode);
  h_names : list string;
  h_denied : syscall -> bool;
  h_umask : Z;
  h_modorigin : option string;
  h_spawn : list string -> exn + child;
  h_trace : list event }.

Definition with_fs (f : gmap string inode -> gmap string inode) (h : host) : host :=
  {| h_fs := f (h_fs h); h_tmpfs := h_tmpfs h; h_names := h_names h;
     h_denied := h_denied h; h_umask := h_umask h;
     h_modorigin := h_modorigin h;
     h_spawn := h_spawn h; h_trace := h_trace h |}.

Definition with_tmpfs (f : gmap string (list devnode) -> gmap string (list devnode))
    (h : host) : host :=
  {| h_fs := h_fs h; h_tmpfs := f (h_tmpfs h); h_names := h_names h;
     h_denied := h_denied h; h_umask := h_umask h;
     h_modorigin := h_modorigin h;
     h_spawn := h_spawn h; h_trace := h_trace h |}.

Definition with_names (l : list string) (h : host) : host :=
  {| h_fs := h_fs h; h_tmpfs := h_tmpfs h; h_names := l;
     h_denied := h_denied h; h_umask := h_umask h;
     h_modorigin := h_modorigin h;
     h_spawn := h_spawn h; h_trace := h_trace h |}.

Definition with_denied (f : syscall -> bool) (h : host) : host :=
  {| h_fs := h_fs h; h_tmpfs := h_tmpfs h; h_names := h_names h;
     h_denied := f; h_umask := h_umask h; h_modorigin := h_modorigin h;
     h_spawn := h_spawn h; h_trace := h_trace h |}.

Definition with_umask (mask : Z) (h : host) : host :=
  {| h_fs := h_fs h; h_tmpfs := h_tmpfs h; h_names := h_names h;
     h_denied := h_denied h; h_umask := mask;
     h_modorigin := h_modorigin h;
     h_spawn := h_spawn h; h_trace := h_trace h |}.

Definition with_spawn (f : list string -> exn + child) (h : host) : host :=
  {| h_fs := h_fs h; h_tmpfs := h_tmpfs h; h_names := h_names h;
     h_denied := h_denied h; h_umask := h_umask h;
     h_modorigin := h_modorigin h;
     h_spawn := f; h_trace := h_trace h |}.

(** The trace grows at its end. *)
Definition extend (evs : list event) (h : host) : host :=
  {| h_fs := h_fs h; h_tmpfs := h_tmpfs h; h_names := h_names h;
     h_denied := h_denied h; h_umask := h_umask h;
     h_modorigin := h_modorigin h;
     h_spawn := h_spawn h; h_trace := h_trace h ++ evs |}.

Definition record (e : event) (h : host) : host := extend [e] h.

(** The mode a new file gets: the one asked for, less the bits of the
    process's mask, of which the kernel keeps the nine permission bits
    ([mode & ~umask]). *)
Definition umasked (mask mode : Z) : Z := Z.ldiff mode (Z.land mask 0x1FF).

(** Path queries.  A tmpfs mount point is a directory whatever lies
    beneath it. *)
Definition lstat (h : host) (p : string) : option inode :=
  match h_tmpfs h !! p with
  | Some _ => Some IDir
  | None => h_fs h !! p
  end.

Definition MAXSYMLINKS : nat := 40.

Fixpoint realpath (fuel : nat) (h : host) (p : string) : option string :=
  match lstat h p with
  | None => None
  | Some (ILnk t) =>
      match fuel with
      | S k => realpath k h t
      | O => None
      end
  | Some _ => Some p
  end.

(** [os.path.isdir] follows symbolic links, [os.path.islink] does not. *)
Definition isdir (h : host) (p : string) : bool :=
  match realpath MAXSYMLINKS h p with
  | Some q => match lstat h q with Some IDir => true | _ => false end
  | None => false
  end.

Definition islink (h : host) (p : string) : bool :=
  match lstat h p with
  | Some (ILnk _) => true
  | _ => false
  end.

(** The entries of a directory of [h_fs] are the keys one level below. *)
Definition entry_of (d k : string) : option string :=
  let pre := Path.join d "" in
  if String.prefix pre k then
    let n := String.substring (String.length pre)
                              (String.length k - String.length pre) k in
    if (String.eqb n "" || contains Path.sep n)%bool then None else Some n
  else None.

Definition children (h : host) (d : string) : list string :=
  omap (fun kv => entry_of d (fst kv)) (map_to_list (h_fs h)).

(** [os.listdir]. *)
Definition listdir (h : host) (p : string) : exn + list string :=
  match realpath MAXSYMLINKS h p with
  | None => inl (OSError ENOENT p)
  | Some q =>
      match h_tmpfs h !! q with
      | Some nodes => inr (n_name <$> nodes)
      | None =>
          match h_fs h !! q with
          | Some IDir => inr (children h q)
          | _ => inl (OSError ENOTDIR p)
          end
      end
  end.

(** [tempfile] draws candidate names until one is free. *)
Fixpoint pick_name (h : host) (dir prefix : string) (cands : list string)
    : option (string * list string) :=
  match cands with
  | [] => None
  | n :: later =>
      let file := Path.join dir (prefix +:+ n) in
      match lstat h file with
      | Some _ => pick_name h dir prefix later
      | None => Some (file, later)
      end
  end.

(** ** The [BuildRoot] object and the interpreter state *)

(** What an [ExitStack] holds: the [__exit__] of a [TemporaryDirectory],
    the lazy-unmount lambda of [__enter__] (which reads [self.dev] when it
    is called) and the [__exit__] of an API endpoint. *)
Inductive callback :=
| CbCleanup (name : string)
| CbUmount
| CbApi (a : api).

(** [_exitstack] is a reference: [None], or the address of an [ExitStack]
    object in the heap. *)
Record BuildRoot := {
  _exitstack : option nat;
  _rootdir : string;
  _rundir : string;
  _vardir : string;
  _libdir : string;
  _runner : string;
  _apis : list api;
  dev : option string;
  var : option string;
  mount_boot : bool }.

Record state := {
  self : BuildRoot;
  stacks : list (list callback);
  os : host }.

Definition __init__ (root runner libdir var rundir : string) : BuildRoot :=
  {| _exitstack := None; _rootdir := root; _rundir := rundir; _vardir := var;
     _libdir := libdir; _runner := runner; _apis := []; dev := None;
     var := None; mount_boot := true |}.

Definition default_rundir : string := "/run/osbuild".

Definition set_exitstack (v : option nat) (b : BuildRoot) : BuildRoot :=
  {| _exitstack := v; _rootdir := _rootdir b; _rundir := _rundir b;
     _vardir := _vardir b; _libdir := _libdir b; _runner := _runner b;
     _apis := _apis b; dev := dev b; var := var b; mount_boot := mount_boot b |}.

Definition set_dev (v : option string) (b : BuildRoot) : BuildRoot :=
  {| _exitstack := _exitstack b; _rootdir := _rootdir b; _rundir := _rundir b;
     _vardir := _vardir b; _libdir := _libdir b; _runner := _runner b;
     _apis := _apis b; dev := v; var := var b; mount_boot := mount_boot b |}.

Definition set_var (v : option string) (b : BuildRoot) : BuildRoot :=
  {| _exitstack := _exitstack b; _rootdir := _rootdir b; _rundir := _rundir b;
     _vardir := _vardir b; _libdir := _libdir b; _runner := _runner b;
     _apis := _apis b; dev := dev b; var := v; mount_boot := mount_boot b |}.

Definition set_apis (v : list api) (b : BuildRoot) : BuildRoot :=
  {| _exitstack := _exitstack b; _rootdir := _rootdir b; _rundir := _rundir b;
     _vardir := _vardir b; _libdir := _libdir b; _runner := _runner b;
     _apis := v; dev := dev b; var := var b; mount_boot := mount_boot b |}.

Definition set_mount_boot (v : bool) (b : BuildRoot) : BuildRoot :=
  {| _exitstack := _exitstack b; _rootdir := _rootdir b; _rundir := _rundir b;
     _vardir := _vardir b; _libdir := _libdir b; _runner := _runner b;
     _apis := _apis b; dev := dev b; var := var b; mount_boot := v |}.

(** ** The monad: state that survives exceptions *)

Definition M (A : Type) : Type := state -> (exn + A) * state.

Definition ret {A} (x : A) : M A := fun st => (inr x, st).

Definition raise {A} (e : exn) : M A := fun st => (inl e, st).

Definition bind {A B} (m : M A) (k : A -> M B) : M B :=
  fun st =>
    match m st with
    | (inr x, st') => k x st'
    | (inl e, st') => (inl e, st')
    end.

Notation "'let!' x ':=' m 'in' k" := (bind m (fun x => k))
  (at level 10, x pattern, m at level 100, k at level 200).
Notation "'do!' m 'in' k" := (bind m (fun _ => k))
  (at level 10, m at level 100, k at level 200).

(** The outcome of running [m], and the state it leaves. *)
Definition outcome {A} (m : M A) (st : state) : exn + A := fst (m st).
Definition after {A} (m : M A) (st : state) : state := snd (m st).

(** [try: ... except: ...] around [m]: the outcome becomes a value. *)
Definition try {A} (m : M A) : M (exn + A) :=
  fun st => let (r, st') := m st in (inr r, st').

Definition gets {A} (f : BuildRoot -> A) : M A := fun st => (inr (f (self st)), st).

Definition host_ : M host := fun st => (inr (os st), st).

Definition on_self (f : BuildRoot -> BuildRoot) (st : state) : state :=
  {| self := f (self st); stacks := stacks st; os := os st |}.

Definition on_stacks (f : list (list callback) -> list (list callback))
    (st : state) : state :=
  {| self := self st; stacks := f (stacks st); os := os st |}.

Definition on_host (f : host -> host) (st : state) : state :=
  {| self := self st; stacks := stacks st; os := f (os st) |}.

Definition update (f : BuildRoot -> BuildRoot) : M unit :=
  fun st => (inr tt, on_self f st).

Definition perform (f : host -> host) : M unit :=
  fun st => (inr tt, on_host f st).

Fixpoint for_each {A} (l : list A) (body : A -> M unit) : M unit :=
  match l with
  | [] => ret tt
  | x :: l' => do! body x in for_each l' body
  end.

(** ** System calls *)

(** [os.makedirs(path, exist_ok=True)].  Missing ancestors are created
    as well; nothing here looks at them, so only [path] is recorded. *)
Definition makedirs (path : string) : M unit :=
  let! h := host_ in
  if h_denied h (SysMakedirs path) then raise (OSError EPERM path)
  else if isdir h path then ret tt
  else match lstat h path with
       | Some _ => raise (OSError EEXIST path)
       | None => perform (fun h => record (EvMakedirs path) (with_fs <[path := IDir]> h))
       end.

(** [tempfile.TemporaryDirectory(prefix=, dir=)]: the directory is made by
    the constructor.  The object is represented by its [name].  (Such an
    object also removes its directory when it is garbage collected
    without having been cleaned up; the model has no garbage
    collection.) *)
Definition TemporaryDirectory (prefix dir : string) : M string :=
  let! h := host_ in
  if h_denied h (SysMkdtemp dir) then raise (OSError EPERM dir)
  else if negb (isdir h dir) then raise (OSError ENOENT dir)
  else match pick_name h dir prefix (h_names h) with
       | None => raise (OSError EEXIST dir)
       | Some (name, later) =>
           do! perform (fun h => record (EvMkdtemp name)
                                   (with_names later (with_fs <[name := IDir]> h))) in
           ret name
       end.

(** [TemporaryDirectory.cleanup]: remove the tree.  A directory that is
    gone already is not an error; a directory that is still a mount point
    loses its contents and then cannot be removed. *)
Definition rmtree (name : string) : M unit :=
  let! h := host_ in
  if h_denied h (SysRmtree name) then raise (OSError EPERM name)
  else match h_tmpfs h !! name with
       | Some _ =>
           do! perform (with_tmpfs <[name := []]>) in
           raise (OSError EBUSY name)
       | None =>
           perform (fun h => record (EvRmtree name)
                      (with_fs (filter (fun kv => Path.under name (fst kv) = false)) h))
       end.

(** [subprocess.run(["mount", "-t", "tmpfs", "-o", "nosuid", "none", target],
    check=True)]. *)
Definition mount_tmpfs (target : string) : M unit :=
  let! h := host_ in
  if (h_denied h (SysMount target) || negb (isdir h target))%bool
  then raise (CalledProcessError ["mount"; "-t"; "tmpfs"; "-o"; "nosuid"; "none"; target])
  else perform (fun h => record (EvMount target) (with_tmpfs <[target := []]> h)).

(** [subprocess.run(["umount", "--lazy", target], check=True)]. *)
Definition umount_lazy (target : string) : M unit :=
  let! h := host_ in
  if (h_denied h (SysUmount target) || negb (bool_decide (is_Some (h_tmpfs h !! target))))%bool
  then raise (CalledProcessError ["umount"; "--lazy"; target])
  else perform (fun h => record (EvUmount target) (with_tmpfs (delete target) h)).

(** [os.mknod(os.path.join(path, name), mode=, device=)] for an entry
    [name] of the directory [path]: inside the tmpfs mounted on [path] when
    there is one, in the underlying file system otherwise.  The node is
    made with the mode asked for less the process's mask, as mknod(2)
    does; the trace keeps the request. *)
Definition os_mknod (path name : string) (mode device : Z) : M unit :=
  let! h := host_ in
  let file := Path.join path name in
  if h_denied h (SysMknod file) then raise (OSError EPERM file)
  else match h_tmpfs h !! path with
       | Some nodes =>
           if bool_decide (name ∈ n_name <$> nodes) then raise (OSError EEXIST file)
           else perform (fun h => record (EvMknod file mode device)
                  (with_tmpfs <[path := nodes ++
                                 [{| n_name := name;
                                     n_mode := umasked (h_umask h) mode;
                                     n_device := device |}]]> h))
       | None =>
           if negb (isdir h path) then raise (OSError ENOENT file)
           else match lstat h file with
                | Some _ => raise (OSError EEXIST file)
                | None => perform (fun h => record (EvMknod file mode device)
                                     (with_fs <[file := IChr (umasked (h_umask h) mode)
                                                             device]> h))
                end
       end.

(** The context of an API endpoint. *)
Definition api_enter (a : api) : M unit :=
  if enter_ok a then perform (record (EvEnter (endpoint a)))
  else raise (EndpointError (endpoint a)).

Definition api_exit (a : api) : M unit :=
  if exit_ok a then perform (record (EvExit (endpoint a)))
  else raise (EndpointError (endpoint a)).

(** ** [contextlib.ExitStack] *)

(** The constructor allocates an empty stack and returns its address. *)
Definition ExitStack : M nat :=
  fun st => (inr (length (stacks st)), on_stacks (fun l => l ++ [[]]) st).

Definition callbacks_of (s : nat) : M (list callback) :=
  fun st => (inr (default [] (stacks st !! s)), st).

Definition set_callbacks (s : nat) (l : list callback) : M unit :=
  fun st => (inr tt, on_stacks <[s := l]> st).

Definition push (s : nat) (cb : callback) : M unit :=
  let! l := callbacks_of s in set_callbacks s (cb :: l).

(** [enter_context(cm)]: enter [cm], and only then register its exit. *)
Definition enter_context_tmpdir (s : nat) (name : string) : M string :=
  do! push s (CbCleanup name) in ret name.

Definition enter_context_api (s : nat) (a : api) : M unit :=
  do! api_enter a in push s (CbApi a).

(** [pop_all()]: a new stack takes over the callbacks, this one is left
    empty. *)
Definition pop_all (s : nat) : M nat :=
  let! l := callbacks_of s in
  let! s' := ExitStack in
  do! set_callbacks s' l in
  do! set_callbacks s [] in
  ret s'.

Definition call (cb : callback) : M unit :=
  match cb with
  | CbCleanup name => rmtree name
  | CbUmount =>
      let! d := gets dev in
      match d with
      | Some d => umount_lazy d
      | None => raise (TypeError "expected str, bytes or os.PathLike object, not NoneType")
      end
  | CbApi a => api_exit a
  end.

(** The loop of [ExitStack.__exit__]: pop and call, last in first out.  A
    callback that raises does not stop the loop; its exception replaces the
    one remembered so far.  None of the callbacks above asks for the
    exception in flight to be suppressed. *)
Fixpoint unwind (s : nat) (cbs : list callback) (raised : option exn)
    : M (option exn) :=
  match cbs with
  | [] => ret raised
  | cb :: below =>
      do! set_callbacks s below in
      let! r := try (call cb) in
      unwind s below (match r with inl e => Some e | inr _ => raised end)
  end.

(** [__exit__] (and [close()], which is [__exit__(None, None, None)]):
    raises the last exception a callback raised, if any. *)
Definition es_exit (s : nat) : M unit :=
  let! cbs := callbacks_of s in
  let! raised := unwind s cbs None in
  match raised with
  | Some e => raise e
  | None => ret tt
  end.

(** [with s: body].  The exception of the body propagates unless the
    unwinding raised one of its own. *)
Definition with_ {A} (s : nat) (body : M A) : M A :=
  fun st =>
    match body st with
    | (inr x, st') =>
        match es_exit s st' with
        | (inr _, st'') => (inr x, st'')
        | (inl e, st'') => (inl e, st'')
        end
    | (inl e, st') =>
        match es_exit s st' with
        | (inr _, st'') => (inl e, st'')
        | (inl e', st'') => (inl e', st'')
        end
    end.

(** ** [BuildRoot] *)

(** [self._exitstack.<method>]: the attribute is read at each use. *)
Definition the_exitstack (method : string) : M nat :=
  let! es := gets _exitstack in
  match es with
  | Some s => ret s
  | None => raise (AttributeError ("'NoneType' object has no attribute '" +:+ method +:+ "'"))
  end.

Definition _mknod (path name : string) (mode major minor : Z) : M unit :=
  os_mknod path name (Z.lor (Stat.S_IMODE mode) Stat.S_IFCHR) (Stat.makedev major minor).

(** The block under [with self._exitstack:] in [__enter__].  [d] and [v]
    are the values just stored in [self.dev] and [self.var]. *)
Definition enter_body : M unit :=
  let! rundir := gets _rundir in
  do! makedirs rundir in
  let! dev_ := TemporaryDirectory "osbuild-dev-" rundir in
  let! es := the_exitstack "enter_context" in
  let! d := enter_context_tmpdir es dev_ in
  do! update (set_dev (Some d)) in

  let! vardir := gets _vardir in
  do! makedirs vardir in
  let! var_ := TemporaryDirectory "osbuild-var-" vardir in
  let! es := the_exitstack "enter_context" in
  let! v := enter_context_tmpdir es var_ in
  do! update (set_var (Some v)) in

  do! mount_tmpfs d in
  let! es := the_exitstack "callback" in
  do! push es CbUmount in

  do! _mknod d "full" 0x1B6 1 7 in
  do! _mknod d "null" 0x1B6 1 3 in
  do! _mknod d "random" 0x1B6 1 8 in
  do! _mknod d "urandom" 0x1B6 1 9 in
  do! _mknod d "tty" 0x1B6 5 0 in
  do! _mknod d "zero" 0x1B6 1 5 in

  let! apis := gets _apis in
  do! for_each apis (fun a =>
        let! es := the_exitstack "enter_context" in
        enter_context_api es a) in

  let! es := the_exitstack "pop_all" in
  let! s' := pop_all es in
  update (set_exitstack (Some s')).

Definition __enter__ : M unit :=
  let! s := ExitStack in
  do! update (set_exitstack (Some s)) in
  with_ s enter_body.

Definition __exit__ : M unit :=
  let! es := the_exitstack "close" in
  do! es_exit es in
  update (set_exitstack None).

Definition register_api (a : api) : M unit :=
  do! update (fun b => set_apis (_apis b ++ [a]) b) in
  let! es := gets _exitstack in
  match es with
  | Some s => enter_context_api s a
  | None => ret tt
  end.

(** ** [BuildRoot.run] *)

Record CompletedProcess := {
  args : list string;
  returncode_ : Z }.

Record CompletedBuild := {
  process : CompletedProcess;
  output : Utf8.text }.

Definition returncode (r : CompletedBuild) : Z := returncode_ (process r).
Definition stdout (r : CompletedBuild) : Utf8.text := output r.
Definition stderr (r : CompletedBuild) : Utf8.text := output r.

(** [self.dev] and [self.var] as list elements.  When the attribute is
    [None] the list holds [None], which makes [Popen] raise [TypeError]
    (see [Popen_args_ok]); the string that stands in for it here is then
    never used. *)
Definition str_or_none (o : option string) : string := default "" o.

Definition imports (b : BuildRoot) : list string :=
  if mount_boot b then ["boot"; "usr"] else ["usr"].

(** Import directories from the caller-provided root: the body of the loop
    over [imports], and the loop. *)
Definition import_mount (b : BuildRoot) (h : host) (p : string) : list string :=
  let source := Path.join (_rootdir b) p in
  if (isdir h source && negb (islink h source))%bool
  then ["--ro-bind"; source; Path.join "/" p]
  else [].

Definition import_mounts (b : BuildRoot) (h : host) : list string :=
  flat_map (import_mount b h) (imports b).

(** The symlinks, [/dev], the temporary and API file systems and the
    [mke2fs] configuration. *)
Definition system_mounts (b : BuildRoot) : list string :=
  ["--symlink"; "usr/lib"; "/lib"] ++
  ["--symlink"; "usr/lib64"; "/lib64"] ++
  ["--symlink"; "usr/bin"; "/bin"] ++
  ["--symlink"; "usr/sbin"; "/sbin"] ++
  ["--dev-bind"; str_or_none (dev b); "/dev"] ++
  ["--tmpfs"; "/dev/shm"] ++
  ["--dir"; "/etc"] ++
  ["--tmpfs"; "/run"] ++
  ["--tmpfs"; "/tmp"] ++
  ["--bind"; str_or_none (var b); "/var"] ++
  ["--proc"; "/proc"] ++
  ["--ro-bind"; "/sys"; "/sys"] ++
  ["--ro-bind-try"; "/sys/fs/selinux"; "/sys/fs/selinux"] ++
  ["--ro-bind-try"; Path.join (_rootdir b) "etc/mke2fs.conf"; "/etc/mke2fs.conf"].

(** The modules of [libdir], and the installed [osbuild] module when
    [libdir] brings none. *)
Definition lib_mounts (b : BuildRoot) (h : host) : exn + list string :=
  match listdir h (Path.join (_libdir b) "osbuild") with
  | inl e => inl e
  | inr (_ :: _) => inr ["--ro-bind"; _libdir b; "/run/osbuild/lib"]
  | inr [] =>
      match h_modorigin h with
      | None => inl (AttributeError "'NoneType' object has no attribute 'origin'")
      | Some modorigin =>
          inr (["--ro-bind"; _libdir b; "/run/osbuild/lib"] ++
               ["--ro-bind"; Path.dirname modorigin; "/run/osbuild/lib/osbuild"])
      end
  end.

Definition colon : ascii := ":"%char.

(** Caller-provided mounts; [binds or []] turns [None] into no binds. *)
Definition caller_mounts (binds readonly_binds : option (list string)) : list string :=
  flat_map (fun b => ["--bind"] ++ split colon b) (default [] binds) ++
  flat_map (fun b => ["--ro-bind"] ++ split colon b) (default [] readonly_binds).

(** The registered API endpoints, under the well known path. *)
Definition api_mounts (b : BuildRoot) : list string :=
  ["--dir"; "/run/osbuild/api"] ++
  flat_map (fun a => ["--bind"; socket_address a; "/run/osbuild/api/" +:+ endpoint a])
           (_apis b).

Definition mounts_of (b : BuildRoot) (h : host)
    (binds readonly_binds : option (list string)) : exn + list string :=
  match lib_mounts b h with
  | inl e => inl e
  | inr lib =>
      inr (import_mounts b h ++ system_mounts b ++ lib ++
           caller_mounts binds readonly_binds ++ api_mounts b)
  end.

Definition bwrap : list string :=
  [ "bwrap";
    "--cap-add"; "CAP_MAC_ADMIN";
    "--chdir"; "/";
    "--die-with-parent";
    "--new-session";
    "--setenv"; "PATH"; "/usr/sbin:/usr/bin";
    "--setenv"; "PYTHONPATH"; "/run/osbuild/lib";
    "--setenv"; "PYTHONUNBUFFERED"; "1";
    "--unshare-ipc";
    "--unshare-pid";
    "--unshare-net" ].

Definition command (b : BuildRoot) (h : host) (argv : list string)
    (binds readonly_binds : option (list string)) : exn + list string :=
  match mounts_of b h binds readonly_binds with
  | inl e => inl e
  | inr mounts =>
      inr (bwrap ++ mounts ++ ["--"; "/run/osbuild/lib/runners/" +:+ _runner b] ++ argv)
  end.

Definition Popen_args_ok (b : BuildRoot) : bool :=
  (bool_decide (is_Some (dev b)) && bool_decide (is_Some (var b)))%bool.

(** [subprocess.Popen(cmd, ...)]. *)
Definition Popen (cmd : list string) : M child :=
  let! b := gets id in
  if negb (Popen_args_ok b)
  then raise (TypeError "expected str, bytes or os.PathLike object, not NoneType")
  else
    let! h := host_ in
    match h_spawn h cmd with
    | inl e => raise e
    | inr c => do! perform (record (EvSpawn cmd)) in ret c
    end.

Definition monitor_log (txt : Utf8.text) : M unit := perform (record (EvLog txt)).

Definition decode (buf : Utf8.bytes) : M Utf8.text :=
  match Utf8.decode buf with
  | Some txt => ret txt
  | None => raise UnicodeDecodeError
  end.

(** The [while True] loop over [os.read(fd, 32768)]; [data] is the
    contents of the [StringIO]. *)
Fixpoint read_loop (pipe : list Utf8.bytes) (data : Utf8.text) : M Utf8.text :=
  match pipe with
  | [] => ret data
  | buf :: later =>
      match buf with
      | [] => ret data
      | _ =>
          let! txt := decode buf in
          let data := data ++ txt in
          do! monitor_log txt in
          read_loop later data
      end
  end.

Definition run (argv : list string) (binds readonly_binds : option (list string))
    : M CompletedBuild :=
  let! es := gets _exitstack in
  match es with
  | None => raise (RuntimeError "No active context")
  | Some _ =>
      let! b := gets id in
      let! h := host_ in
      match command b h argv binds readonly_binds with
      | inl e => raise e
      | inr cmd =>
          let! proc := Popen cmd in
          let! data := read_loop (reads proc) [] in
          let! txt := decode (rest proc) in
          do! monitor_log txt in
          let output := data ++ txt in
          ret {| process := {| args := cmd; returncode_ := status proc |};
                 output := output |}
      end
  end.

(** A caller's bind request for the pair [(source, destination)]. *)
Definition bind_request (p : string * string) : string :=
  fst p +:+ ":" +:+ snd p.

(** The messages the monitor received, in order. *)
Definition logged (tr : list event) : list Utf8.text :=
  omap (fun e => match e with EvLog txt => Some txt | _ => None end) tr.

Definition spawned (tr : list event) : list (list string) :=
  omap (fun e => match e with EvSpawn cmd => Some cmd | _ => None end) tr.

(** ** Vocabulary of the properties *)

(** The reads that the loop of [run] consumes: those before the end of
    the stream, which an empty read announces. *)
Fixpoint consumed (pipe : list Utf8.bytes) : list Utf8.bytes :=
  match pipe with
  | [] => []
  | buf :: later =>
      match buf with
      | [] => []
      | _ => buf :: consumed later
      end
  end.

(** Every byte the child has written, in order. *)
Definition emitted (c : child) : Utf8.bytes :=
  concat (consumed (reads c)) ++ rest c.

(** The environment is open when [run] finds an active context. *)
Definition is_open (st : state) : Prop := is_Some (_exitstack (self st)).

Definition has_dirs (st : state) : Prop :=
  is_Some (dev (self st)) /\ is_Some (var (self st)).

(** The invariant of the data model, and the direction of it that the
    code maintains. *)
Definition dirs_iff_open (st : state) : Prop := has_dirs st <-> is_open st.
Definition open_has_dirs (st : state) : Prop := is_open st -> has_dirs st.

(** What [stat] would tell about a device node: name, whether it is a
    character device, permission bits, major and minor number. *)
Definition describe (n : devnode) : string * bool * Z * Z * Z :=
  (n_name n, Stat.S_ISCHR (n_mode n), Stat.S_IMODE (n_mode n),
   Stat.major (n_device n), Stat.minor (n_device n)).

Definition mode_0666 : Z := 0x1B6.

Definition nodes_with (perms : Z) : list (string * bool * Z * Z * Z) :=
  [ ("full", true, perms, 1, 7);
    ("null", true, perms, 1, 3);
    ("random", true, perms, 1, 8);
    ("urandom", true, perms, 1, 9);
    ("tty", true, perms, 5, 0);
    ("zero", true, perms, 1, 5) ].

Definition standard_nodes : list (string * bool * Z * Z * Z) :=
  nodes_with mode_0666.

(** What the specification says of the device directory [d]: it holds the
    six standard nodes, each with mode 0666. *)
Definition holds_standard_nodes (d : string) (st : state) : Prop :=
  exists nodes, h_tmpfs (os st) !! d = Some nodes /\
                describe <$> nodes = standard_nodes.

(** The number of separators in a string, and what the specification says
    of a caller's bind entry: that it gives a source and a destination. *)
Fixpoint occurrences (sep : ascii) (s : string) : nat :=
  match s with
  | EmptyString => O
  | String c r => if Ascii.eqb c sep then S (occurrences sep r) else occurrences sep r
  end.

Definition parsed_as_pair (e : string) : Prop :=
  exists src dst, split colon e = [src; dst].

(** The bind directive of an endpoint. *)
Definition api_bind (a : api) : list string :=
  ["--bind"; socket_address a; "/run/osbuild/api/" +:+ endpoint a].

(** A state that differs from [st] only in not being open. *)
Definition closed (st : state) : state := on_self (set_exitstack None) st.

(** What the specification says of the three calls it wants refused. *)
Definition closes_silently (st : state) : Prop :=
  __exit__ st = (inr tt, st).

Definition refuses_reopen (st : state) : Prop :=
  (exists e, outcome __enter__ st = inl e) /\
  os (after __enter__ st) = os st.

Definition rejects_duplicate (a : api) (st : state) : Prop :=
  (exists e, outcome (register_api a) st = inl e) /\
  _apis (self (after (register_api a) st)) = _apis (self st).

(** What a failed [__enter__] should leave behind: a closed environment. *)
Definition left_closed (st : state) : Prop :=
  _exitstack (self st) = None.

(** The device nodes of [__enter__], as [_mknod] requests them, the events
    their creation leaves in the trace, and the node that the kernel makes
    of a request under a mask. *)
Definition chr (name : string) (mode major minor : Z) : devnode :=
  {| n_name := name; n_mode := Z.lor (Stat.S_IMODE mode) Stat.S_IFCHR;
     n_device := Stat.makedev major minor |}.

Definition node_event (d : string) (n : devnode) : event :=
  EvMknod (Path.join d (n_name n)) (n_mode n) (n_device n).

Definition device_nodes : list devnode :=
  [ chr "full" 0x1B6 1 7; chr "null" 0x1B6 1 3; chr "random" 0x1B6 1 8;
    chr "urandom" 0x1B6 1 9; chr "tty" 0x1B6 5 0; chr "zero" 0x1B6 1 5 ].

Definition made (mask : Z) (n : devnode) : devnode :=
  {| n_name := n_name n; n_mode := umasked mask (n_mode n);
     n_device := n_device n |}.

(** Release events. *)
Definition is_release (e : event) : bool :=
  match e with
  | EvUmount _ | EvRmtree _ | EvExit _ => true
  | _ => false
  end.

(** Code that leaves the object alone, and predicates that code
    maintains. *)
Definition keeps_self {A} (m : M A) : Prop :=
  forall st, self (snd (m st)) = self st.

Definition preserves {A} (P : state -> Prop) (m : M A) : Prop :=
  forall st, P st -> P (snd (m st)).

(** ** Concrete scenarios

    A host with a root tree, a self-contained [libdir] and a cooperative
    kernel, and the states a [BuildRoot] goes through on it. *)

Module Scenario.

Definition quiet_child : child :=
  {| reads := [[104; 105; 10]]; rest := []; status := 0 |}.

(** The process runs under the usual mask, 022. *)
Definition h0 : host :=
  {| h_fs := list_to_map
       [("/tree", IDir); ("/tree/usr", IDir); ("/tree/boot", IDir);
        ("/lib", IDir); ("/lib/osbuild", IDir); ("/lib/osbuild/api.py", IReg)];
     h_tmpfs := ∅;
     h_names := ["k3x9"; "p0q1"; "zz42"; "m7m7"];
     h_denied := fun _ => false;
     h_umask := 0x12;
     h_modorigin := Some "/usr/lib/python3/site-packages/osbuild/__init__.py";
     h_spawn := fun _ => inr quiet_child;
     h_trace := [] |}.

Definition on (h : host) : state :=
  {| self := __init__ "/tree" "org.osbuild.linux" "/lib" "/var/tmp" default_rundir;
     stacks := [];
     os := h |}.

Definition fresh : state := on h0.

(** The same, for a process that has cleared its mask. *)
Definition unmasked : state := on (with_umask 0 h0).

Definition opened : state := after __enter__ fresh.

Definition remoteloop : api :=
  {| endpoint := "remoteloop"; socket_address := "/run/osbuild/api-1/sock";
     enter_ok := true; exit_ok := true |}.

Definition remoteloop' : api :=
  {| endpoint := "remoteloop"; socket_address := "/run/osbuild/api-2/sock";
     enter_ok := true; exit_ok := true |}.

(** The kernel refuses the second device node. *)
Definition no_null (c : syscall) : bool :=
  match c with
  | SysMknod p => String.eqb p "/run/osbuild/osbuild-dev-k3x9/null"
  | _ => false
  end.

(** A child that prints "é" (bytes C3 A9), seen by the parent in two
    reads of one byte each. *)
Definition accent_child : child :=
  {| reads := [[0xC3]; [0xA9]]; rest := []; status := 0 |}.

(** The same child when both bytes arrive in one read. *)
Definition accent_child_whole : child :=
  {| reads := [[0xC3; 0xA9]]; rest := []; status := 0 |}.

(** An environment whose [libdir] has no [osbuild] directory. *)
Definition bare : state :=
  after __enter__
    {| self := __init__ "/tree" "org.osbuild.linux" "/tree" "/var/tmp" default_rundir;
       stacks := [];
       os := h0 |}.

(** The tree has a [boot] directory and [usr] is a symbolic link. *)
Definition h_usr_link : host :=
  with_fs (fun m => <["/tree/usr" := ILnk "/tree/boot"]> m) h0.

End Scenario.

(** ** Vocabulary of the lifecycle properties *)












Definition keeps_stacks {A} (m : M A) : Prop :=
  forall st, stacks (snd (m st)) = stacks st.


(** ** Further scenarios *)

Module Cases.

Definition lorax : api :=
  {| endpoint := "lorax"; socket_address := "/run/osbuild/api-3/sock";
     enter_ok := true; exit_ok := true |}.

(** An endpoint whose context cannot be entered. *)
Definition broken : api :=
  {| endpoint := "sources"; socket_address := "/run/osbuild/api-4/sock";
     enter_ok := false; exit_ok := true |}.

(** Two endpoints registered before the environment is opened. *)
Definition two_registered : state :=
  after (register_api lorax) (after (register_api Scenario.remoteloop) Scenario.fresh).

Definition two_opened : state := after __enter__ two_registered.

(** A host on which [umount] fails. *)
Definition no_umount (c : syscall) : bool :=
  match c with
  | SysUmount _ => true
  | _ => false
  end.

(** A child that prints plain text, seen in three reads. *)
Definition plain_child : child :=
  {| reads := [[111]; [107; 10]; [100; 111; 110; 101]]; rest := [10]; status := 3 |}.

End Cases.

(** Bytes that are ASCII characters. *)
Definition ascii_bytes (bs : Utf8.bytes) : Prop :=
  Forall (fun b => 0 <= b <= 127) bs.

(** ** Proof automation *)

Arguments Utf8.within : simpl never.
Arguments Utf8.cont : simpl never.
Arguments Utf8.low6 : simpl never.

Ltac norm := cbn [on_host on_self on_stacks self stacks os] in *.

Create HintDb keeps.

(** * Properties *)

(** ** Reading monadic code *)

Lemma bind_inr {A B} (m : M A) (k : A -> M B) st y st'' :
  bind m k st = (inr y, st'') ->
  exists x st', m st = (inr x, st') /\ k x st' = (inr y, st'').
Proof.
  unfold bind. destruct (m st) as [[e|x] st'] eqn:E; [discriminate|]. eauto.
Qed.

(** ** Strings *)

Lemma split_no_sep sep s : contains sep s = false -> split sep s = [s].
Proof.
  induction s as [|c s IH]; simpl; [reflexivity|].
  intros H. apply orb_false_iff in H as [Hc Hs].
  rewrite Hc, (IH Hs). reflexivity.
Qed.

Lemma split_pair sep src dst :
  contains sep src = false -> contains sep dst = false ->
  split sep (src +:+ String sep dst) = [src; dst].
Proof.
  intros Hs Hd. induction src as [|c s IH]; simpl in *.
  - rewrite Ascii.eqb_refl, (split_no_sep _ _ Hd). reflexivity.
  - apply orb_false_iff in Hs as [Hc Hs]. rewrite Hc, (IH Hs). reflexivity.
Qed.

Lemma boot_is_not_joined a : Path.join a "usr" <> "/boot".
Proof.
  unfold Path.join. simpl.
  destruct (String.eqb a "" || Path.ends_with_sep a)%bool; intros H;
    do 6 (destruct a as [|? a]; [cbv in H; discriminate H|]);
    cbv [String.append] in H; discriminate H.
Qed.

(** ** The file system *)

Lemma realpath_absent fuel h p : lstat h p = None -> realpath fuel h p = None.
Proof. intros H. destruct fuel; simpl; rewrite H; reflexivity. Qed.

Lemma listdir_absent h p : lstat h p = None -> listdir h p = inl (OSError ENOENT p).
Proof. intros H. unfold listdir. rewrite (realpath_absent _ _ _ H). reflexivity. Qed.

Lemma isdir_absent h p : lstat h p = None -> isdir h p = false.
Proof. intros H. unfold isdir. rewrite (realpath_absent _ _ _ H). reflexivity. Qed.

(** ** The trace *)

Lemma extend_nil st : on_host (extend []) st = st.
Proof.
  destruct st as [b ss [f t n d u o sp tr]]. unfold on_host, extend. simpl.
  rewrite app_nil_r. reflexivity.
Qed.

Lemma extend_extend a b st :
  on_host (extend b) (on_host (extend a) st) = on_host (extend (a ++ b)) st.
Proof. unfold on_host, extend. simpl. rewrite app_assoc. reflexivity. Qed.

(** ** Decoding *)

Lemma decode_app_bounded n :
  forall a b x y, (length a <= n)%nat ->
    Utf8.decode a = Some x -> Utf8.decode b = Some y ->
    Utf8.decode (a ++ b) = Some (x ++ y).
Proof.
  induction n as [|n IH]; intros a b x y Hn Ha Hb.
  - destruct a; [|simpl in Hn; lia]. simpl in *. injection Ha as <-. exact Hb.
  - destruct a as [|b0 r0]; [simpl in *; injection Ha as <-; exact Hb|].
    simpl in Hn. rewrite <- app_comm_cons. simpl in Ha |- *.
    destruct (Utf8.within 0 127 b0).
    { destruct (Utf8.decode r0) as [x'|] eqn:E; [|discriminate].
      simpl in Ha. injection Ha as <-.
      rewrite (IH r0 b x' y ltac:(lia) E Hb). reflexivity. }
    destruct (Utf8.within 194 223 b0).
    { destruct r0 as [|b1 r1]; [discriminate|]. simpl in Hn |- *.
      destruct (Utf8.cont b1); [|discriminate].
      destruct (Utf8.decode r1) as [x'|] eqn:E; [|discriminate].
      simpl in Ha. injection Ha as <-.
      rewrite (IH r1 b x' y ltac:(lia) E Hb). reflexivity. }
    destruct (Utf8.within 224 239 b0).
    { destruct r0 as [|b1 [|b2 r2]]; try discriminate. simpl in Hn |- *.
      destruct (Utf8.within _ _ b1 && Utf8.cont b2)%bool; [|discriminate].
      destruct (Utf8.decode r2) as [x'|] eqn:E; [|discriminate].
      simpl in Ha. injection Ha as <-.
      rewrite (IH r2 b x' y ltac:(lia) E Hb). reflexivity. }
    destruct (Utf8.within 240 244 b0); [|discriminate].
    destruct r0 as [|b1 [|b2 [|b3 r3]]]; try discriminate. simpl in Hn |- *.
    destruct (Utf8.within _ _ b1 && Utf8.cont b2 && Utf8.cont b3)%bool; [|discriminate].
    destruct (Utf8.decode r3) as [x'|] eqn:E; [|discriminate].
    simpl in Ha. injection Ha as <-.
    rewrite (IH r3 b x' y ltac:(lia) E Hb). reflexivity.
Qed.

Lemma decode_app a b x y :
  Utf8.decode a = Some x -> Utf8.decode b = Some y ->
  Utf8.decode (a ++ b) = Some (x ++ y).
Proof. apply (decode_app_bounded (length a)). lia. Qed.

Lemma decode_concat chunks txts :
  Forall2 (fun buf txt => Utf8.decode buf = Some txt) chunks txts ->
  Utf8.decode (concat chunks) = Some (concat txts).
Proof.
  induction 1 as [|buf txt chunks txts H _ IH]; simpl; [reflexivity|].
  apply decode_app; assumption.
Qed.

(** ** Streaming *)

Lemma decode_inr buf txt st st' :
  decode buf st = (inr txt, st') -> Utf8.decode buf = Some txt /\ st' = st.
Proof.
  unfold decode. destruct (Utf8.decode buf); unfold ret, raise; intros H;
    inversion H; auto.
Qed.

Lemma read_loop_inr pipe :
  forall data st data' st',
    read_loop pipe data st = (inr data', st') ->
    exists txts,
      Forall2 (fun buf txt => Utf8.decode buf = Some txt) (consumed pipe) txts /\
      data' = data ++ concat txts /\
      st' = on_host (extend (EvLog <$> txts)) st.
Proof.
  induction pipe as [|buf later IH]; intros data st data' st' H.
  - inversion H; subst. exists []. simpl. rewrite app_nil_r, extend_nil. auto.
  - destruct buf as [|b0 buf].
    + inversion H; subst. exists []. simpl. rewrite app_nil_r, extend_nil. auto.
    + change (read_loop ((b0 :: buf) :: later) data)
        with (let! txt := decode (b0 :: buf) in
              do! monitor_log txt in read_loop later (data ++ txt)) in H.
      apply bind_inr in H as (txt & st1 & Hd & H).
      apply decode_inr in Hd as [Hd ->].
      apply bind_inr in H as ([] & st2 & Hl & H).
      injection Hl as <-.
      apply IH in H as (txts & Hall & -> & ->).
      exists (txt :: txts). split; [|split].
      * simpl. constructor; assumption.
      * simpl. rewrite app_assoc. reflexivity.
      * unfold record. rewrite extend_extend. reflexivity.
Qed.

(** ** The command line of [run] *)

Lemma command_absent b h argv binds ro :
  lstat h (Path.join (_libdir b) "osbuild") = None ->
  command b h argv binds ro = inl (OSError ENOENT (Path.join (_libdir b) "osbuild")).
Proof.
  intros H. unfold command, mounts_of, lib_mounts. rewrite (listdir_absent _ _ H).
  reflexivity.
Qed.

(** A successful [run] was called on an open environment, has spawned the
    command that [command] composes, has decoded every read on its own,
    and has logged each piece. *)
Lemma run_inr argv binds ro st r st' :
  run argv binds ro st = (inr r, st') ->
  exists cmd c txts last,
    is_open st /\
    command (self st) (os st) argv binds ro = inr cmd /\
    h_spawn (os st) cmd = inr c /\
    Forall2 (fun buf txt => Utf8.decode buf = Some txt) (consumed (reads c)) txts /\
    Utf8.decode (rest c) = Some last /\
    r = {| process := {| args := cmd; returncode_ := status c |};
           output := concat txts ++ last |} /\
    st' = on_host (extend (EvSpawn cmd :: (EvLog <$> txts) ++ [EvLog last])) st.
Proof.
  unfold run. intros H.
  apply bind_inr in H as (es & st1 & Hes & H). injection Hes as <- <-.
  destruct (_exitstack (self st)) as [s|] eqn:Hs; [|discriminate].
  apply bind_inr in H as (b & st1 & Hb & H). injection Hb as <- <-.
  apply bind_inr in H as (h & st1 & Hh & H). injection Hh as <- <-.
  unfold id in H.
  destruct (command (self st) (os st) argv binds ro) as [e|cmd] eqn:Hc; [discriminate|].
  apply bind_inr in H as (c & st1 & Hp & H).
  unfold Popen in Hp.
  apply bind_inr in Hp as (b & st2 & Hb & Hp). injection Hb as <- <-.
  destruct (negb (Popen_args_ok (self st))); [discriminate|].
  apply bind_inr in Hp as (h & st2 & Hh & Hp). injection Hh as <- <-.
  destruct (h_spawn (os st) cmd) as [e|c'] eqn:Hsp; [discriminate|].
  apply bind_inr in Hp as ([] & st2 & Hr & Hp).
  injection Hr as <-. injection Hp as <- <-.
  apply bind_inr in H as (data & st1 & Hl & H).
  apply read_loop_inr in Hl as (txts & Hall & -> & ->).
  apply bind_inr in H as (last & st1 & Hd & H).
  apply decode_inr in Hd as [Hd ->].
  apply bind_inr in H as ([] & st1 & Hm & H).
  injection Hm as <-. injection H as <- <-.
  exists cmd, c', txts, last. repeat split; try assumption.
  - unfold is_open. rewrite Hs. eauto.
  - unfold record. rewrite !extend_extend. reflexivity.
Qed.

Lemma import_mount_link b h p :
  islink h (Path.join (_rootdir b) p) = true -> import_mount b h p = [].
Proof.
  intros H. unfold import_mount. rewrite H, andb_false_r. reflexivity.
Qed.

Lemma import_mount_absent b h p :
  lstat h (Path.join (_rootdir b) p) = None -> import_mount b h p = [].
Proof.
  intros H. unfold import_mount. rewrite (isdir_absent _ _ H). reflexivity.
Qed.

Lemma import_mount_elem b h p x :
  x ∈ import_mount b h p ->
  x = "--ro-bind" \/ x = Path.join (_rootdir b) p \/ x = Path.join "/" p.
Proof.
  unfold import_mount.
  destruct (isdir h _ && negb (islink h _))%bool; intros H.
  - apply list_elem_of_In in H. simpl in H. intuition.
  - apply elem_of_nil in H. destruct H.
Qed.

(** ** Claims about [run] *)

(** C7.  The command line that [run] composes starts with the [bwrap]
    options, then the imports from the root, then the [/lib] symlink.
    With [mount_boot] off the imports consist of the import of [usr]
    alone, whatever [boot] is, and nothing in them names [/boot]; and an
    entry of the root that is a symbolic link contributes nothing, exactly
    like an entry that does not exist. *)
Theorem imports_gated (b : BuildRoot) (h : host) :
  (forall argv binds ro cmd, command b h argv binds ro = inr cmd ->
     exists tail,
       cmd = bwrap ++ import_mounts b h ++ ["--symlink"; "usr/lib"; "/lib"] ++ tail) /\
  (mount_boot b = false ->
     import_mounts b h = import_mount b h "usr" /\ "/boot" ∉ import_mounts b h) /\
  (forall p, islink h (Path.join (_rootdir b) p) = true ->
     import_mount b h p = [] /\
     forall h', lstat h' (Path.join (_rootdir b) p) = None ->
       import_mount b h' p = import_mount b h p).
Proof.
  split.
  { intros argv binds ro cmd H. unfold command, mounts_of in H.
    destruct (lib_mounts b h) as [e|lib]; [discriminate|].
    apply (inj inr) in H. subst cmd. unfold system_mounts.
    eexists. rewrite <- !app_assoc. reflexivity. }
  split.
  - intros Hb. unfold import_mounts, imports. rewrite Hb. simpl.
    rewrite app_nil_r. split; [reflexivity|].
    intros Hin. apply import_mount_elem in Hin as [H|[H|H]].
    + discriminate H.
    + symmetry in H. exact (boot_is_not_joined _ H).
    + vm_compute in H. discriminate H.
  - intros p Hl. split; [exact (import_mount_link _ _ _ Hl)|].
    intros h' Hn. rewrite (import_mount_link _ _ _ Hl).
    exact (import_mount_absent _ _ _ Hn).
Qed.

Lemma imports_gated_witness :
  import_mounts (set_mount_boot false (self Scenario.fresh)) Scenario.h0
    = ["--ro-bind"; "/tree/usr"; "/usr"] /\
  import_mount (self Scenario.fresh) Scenario.h_usr_link "usr" = [].
Proof.
  split.
  - destruct (imports_gated (set_mount_boot false (self Scenario.fresh)) Scenario.h0)
      as (_ & H & _).
    destruct (H eq_refl) as [-> _]. vm_compute. reflexivity.
  - destruct (imports_gated (self Scenario.fresh) Scenario.h_usr_link) as (_ & _ & H).
    refine (proj1 (H "usr" _)). vm_compute. reflexivity.
Defined.

(** Whatever its outcome, [run] only adds events to the trace: none
    when it raises before the child is there, and otherwise the spawning
    of the command that [command] composes, followed by log messages. *)
Lemma spawned_logs txts : spawned (EvLog <$> txts) = [].
Proof. induction txts as [|t l IH]; [reflexivity|exact IH]. Qed.

Lemma read_loop_logs pipe :
  forall data st,
    exists txts, snd (read_loop pipe data st) = on_host (extend (EvLog <$> txts)) st.
Proof.
  induction pipe as [|buf later IH]; intros data st.
  - exists []. simpl. rewrite extend_nil. reflexivity.
  - destruct buf as [|b0 buf].
    + exists []. simpl. rewrite extend_nil. reflexivity.
    + change (read_loop ((b0 :: buf) :: later) data)
        with (let! txt := decode (b0 :: buf) in
              do! monitor_log txt in read_loop later (data ++ txt)).
      unfold bind at 1, decode. destruct (Utf8.decode (b0 :: buf)) as [txt|].
      * unfold ret at 1, bind at 1, monitor_log, perform.
        destruct (IH (data ++ txt) (on_host (record (EvLog txt)) st)) as (txts & Ht).
        exists (txt :: txts). rewrite Ht. unfold record. rewrite extend_extend.
        reflexivity.
      * exists []. simpl. rewrite extend_nil. reflexivity.
Qed.

Lemma run_spawns argv binds ro st :
  exists evs,
    after (run argv binds ro) st = on_host (extend evs) st /\
    ((spawned evs = [] /\ exists e, outcome (run argv binds ro) st = inl e) \/
     exists cmd, command (self st) (os st) argv binds ro = inr cmd /\
                 spawned evs = [cmd]).
Proof.
  unfold after, outcome. destruct (run argv binds ro st) as [o st'] eqn:E.
  cbn [fst snd].
  assert (Hnone : forall e : exn, (inl e, st) = (o, st') ->
            exists evs, st' = on_host (extend evs) st /\
              ((spawned evs = [] /\ exists e', o = inl e') \/
               exists cmd, command (self st) (os st) argv binds ro = inr cmd /\
                           spawned evs = [cmd])).
  { intros e H. injection H as <- <-. exists []. rewrite extend_nil.
    split; [reflexivity|]. left. eauto. }
  unfold run in E.
  unfold bind at 1, gets at 1 in E.
  destruct (_exitstack (self st)) as [s|]; [|exact (Hnone _ E)].
  unfold bind at 1, gets at 1, bind at 1, host_, id in E.
  destruct (command (self st) (os st) argv binds ro) as [e|cmd] eqn:Hc;
    [exact (Hnone _ E)|].
  unfold bind at 1, Popen in E.
  unfold bind at 1, gets at 1, id in E.
  destruct (negb (Popen_args_ok (self st))); [exact (Hnone _ E)|].
  unfold bind at 1, host_ in E.
  destruct (h_spawn (os st) cmd) as [e|c]; [exact (Hnone _ E)|].
  unfold bind at 1, perform, ret at 1 in E.
  unfold bind at 1 in E.
  destruct (read_loop_logs (reads c) [] (on_host (record (EvSpawn cmd)) st))
    as (txts & Hl).
  destruct (read_loop (reads c) [] (on_host (record (EvSpawn cmd)) st))
    as [[e|data] st1]; simpl in Hl; subst st1.
  - injection E as <- <-. exists (EvSpawn cmd :: (EvLog <$> txts)). split.
    + unfold record. rewrite extend_extend. reflexivity.
    + right. exists cmd. split; [reflexivity|]. simpl. rewrite spawned_logs. reflexivity.
  - unfold bind at 1, decode in E. destruct (Utf8.decode (rest c)) as [last|].
    + unfold ret at 1, bind, monitor_log, perform, ret in E. injection E as <- <-.
      exists (EvSpawn cmd :: (EvLog <$> txts) ++ [EvLog last]). split.
      * unfold record. rewrite !extend_extend. reflexivity.
      * right. exists cmd. split; [reflexivity|]. simpl.
        unfold spawned. rewrite omap_app. fold (spawned (EvLog <$> txts)).
        rewrite spawned_logs. reflexivity.
    + unfold raise in E. injection E as <- <-.
      exists (EvSpawn cmd :: (EvLog <$> txts)). split.
      * unfold record. rewrite extend_extend. reflexivity.
      * right. exists cmd. split; [reflexivity|]. simpl. rewrite spawned_logs.
        reflexivity.
Qed.

Lemma split_length sep s : length (split sep s) = S (occurrences sep s).
Proof.
  induction s as [|c s IH]; [reflexivity|]. cbn [split occurrences].
  destruct (Ascii.eqb c sep); [simpl; rewrite IH; reflexivity|].
  destruct (split sep s) as [|h t]; [discriminate IH|exact IH].
Qed.

(** C8.  Whatever its outcome, [run] adds events to the trace and nothing
    else; when it returns it has spawned the command it reports; and a
    command it has spawned lists, after the fixed bindings (imports,
    system, library), the caller's read-write binds, then the caller's
    read-only binds, each in the caller's order; then the creation of
    [/run/osbuild/api]; then one bind per registered endpoint, from its
    socket address to [/run/osbuild/api/<name>], which ends the bind
    list.  A caller's entry gives its flag and then every piece of the
    entry between colons, one more than it has colons: a source and a
    destination exactly when it has one colon, as the request made of a
    source and a destination without colons does. *)
Theorem run_caller_binds_order (st : state) (argv : list string)
    (binds readonly_binds : option (list string)) :
  exists evs,
    after (run argv binds readonly_binds) st = on_host (extend evs) st /\
    (forall r, outcome (run argv binds readonly_binds) st = inr r ->
       spawned evs = [args (process r)]) /\
    (forall cmd, cmd ∈ spawned evs ->
       exists lib,
         lib_mounts (self st) (os st) = inr lib /\
         cmd =
           bwrap ++
           (import_mounts (self st) (os st) ++ system_mounts (self st) ++ lib) ++
           flat_map (fun e => ["--bind"] ++ split colon e) (default [] binds) ++
           flat_map (fun e => ["--ro-bind"] ++ split colon e)
                    (default [] readonly_binds) ++
           ["--dir"; "/run/osbuild/api"] ++
           flat_map api_bind (_apis (self st)) ++
           ["--"; "/run/osbuild/lib/runners/" +:+ _runner (self st)] ++ argv) /\
    (forall e,
       length (split colon e) = S (occurrences colon e) /\
       (parsed_as_pair e <-> occurrences colon e = 1%nat)) /\
    (forall src dst,
       contains colon src = false -> contains colon dst = false ->
       split colon (bind_request (src, dst)) = [src; dst]).
Proof.
  destruct (run_spawns argv binds readonly_binds st) as (evs & Hafter & Hsp).
  exists evs. split; [exact Hafter|]. split; [|split; [|split]].
  - intros r Hr. destruct Hsp as [[_ [e He]]|(cmd & Hc & Hs)].
    + rewrite Hr in He. discriminate He.
    + destruct (run argv binds readonly_binds st) as [o st'] eqn:E.
      unfold outcome in Hr. rewrite E in Hr. simpl in Hr. subst o.
      apply run_inr in E as (cmd' & c & txts & last & _ & Hc' & _ & _ & _ & -> & _).
      rewrite Hc in Hc'. apply (inj inr) in Hc'. subst cmd'. exact Hs.
  - intros cmd Hin. destruct Hsp as [[Hs _]|(cmd' & Hc & Hs)].
    + rewrite Hs in Hin. apply elem_of_nil in Hin. destruct Hin.
    + rewrite Hs in Hin. apply list_elem_of_singleton in Hin. subst cmd'.
      unfold command, mounts_of in Hc.
      destruct (lib_mounts (self st) (os st)) as [e|lib]; [discriminate|].
      apply (inj inr) in Hc. subst cmd. exists lib. split; [reflexivity|].
      unfold caller_mounts, api_mounts. fold api_bind.
      rewrite <- !app_assoc. reflexivity.
  - intros e. pose proof (split_length colon e) as Hlen.
    split; [exact Hlen|]. unfold parsed_as_pair. split.
    + intros (src & dst & H). rewrite H in Hlen. simpl in Hlen. lia.
    + intros H. rewrite H in Hlen.
      destruct (split colon e) as [|src [|dst [|x l]]]; try discriminate Hlen.
      eauto.
  - intros src dst Hs Hd. unfold bind_request. cbn [fst snd].
    change (":" +:+ dst) with (String colon dst).
    exact (split_pair _ _ _ Hs Hd).
Qed.

(** C10.  When [<libdir>/osbuild] does not exist, [run] raises and leaves
    the state as it found it: nothing was spawned, and the fallback to the
    installed module, which is for a directory that lists as empty, did
    not apply.  On an open environment the error is that of [listdir]. *)
Theorem run_missing_module_tree (st : state) (argv : list string)
    (binds readonly_binds : option (list string)) :
  lstat (os st) (Path.join (_libdir (self st)) "osbuild") = None ->
  exists e,
    run argv binds readonly_binds st = (inl e, st) /\
    (is_open st -> e = OSError ENOENT (Path.join (_libdir (self st)) "osbuild")).
Proof.
  intros H. unfold run, bind, gets, host_, raise, is_open. cbn.
  destruct (_exitstack (self st)) as [s|].
  - rewrite (command_absent _ _ argv binds readonly_binds H). eauto.
  - eexists. split; [reflexivity|]. intros [x Hx]. discriminate Hx.
Qed.

Lemma run_missing_module_tree_witness :
  exists e, run ["true"] None None Scenario.bare = (inl e, Scenario.bare).
Proof.
  destruct (run_missing_module_tree Scenario.bare ["true"] None None) as (e & H & _).
  - vm_compute. reflexivity.
  - exists e. exact H.
Defined.

Lemma run_caller_binds_order_witness :
  exists r st',
    run ["true"] (Some ["/srv/in:/in"; "/srv/out:/out"]) (Some ["/etc/pki:/pki"])
        Scenario.opened = (inr r, st') /\
    args (process r) =
      bwrap ++
      ["--ro-bind"; "/tree/boot"; "/boot"; "--ro-bind"; "/tree/usr"; "/usr"] ++
      system_mounts (self Scenario.opened) ++
      ["--ro-bind"; "/lib"; "/run/osbuild/lib"] ++
      ["--bind"; "/srv/in"; "/in"; "--bind"; "/srv/out"; "/out"] ++
      ["--ro-bind"; "/etc/pki"; "/pki"] ++
      ["--dir"; "/run/osbuild/api"] ++
      ["--"; "/run/osbuild/lib/runners/org.osbuild.linux"; "true"].
Proof.
  destruct (run ["true"] (Some ["/srv/in:/in"; "/srv/out:/out"]) (Some ["/etc/pki:/pki"])
                Scenario.opened) as [[e|r] st'] eqn:E.
  - vm_compute in E. discriminate E.
  - exists r, st'. split; [reflexivity|].
    destruct (run_caller_binds_order Scenario.opened ["true"]
                (Some ["/srv/in:/in"; "/srv/out:/out"]) (Some ["/etc/pki:/pki"]))
      as (evs & _ & Hret & Hshape & _).
    specialize (Hret r). unfold outcome in Hret. rewrite E in Hret.
    specialize (Hret eq_refl).
    destruct (Hshape (args (process r))) as (lib & Hlib & Hargs).
    + rewrite Hret. apply list_elem_of_singleton. reflexivity.
    + rewrite Hargs. vm_compute in Hlib. apply (inj inr) in Hlib. subst lib.
      vm_compute. reflexivity.
Defined.

(** An entry with two colons becomes three arguments after its flag, and
    an entry with none becomes one. *)
Lemma run_caller_binds_not_pairs :
  exists r st',
    run ["true"] (Some ["/srv/a:b:/in"]) (Some ["/etc/pki"]) Scenario.opened
      = (inr r, st') /\
    args (process r) =
      bwrap ++
      ["--ro-bind"; "/tree/boot"; "/boot"; "--ro-bind"; "/tree/usr"; "/usr"] ++
      system_mounts (self Scenario.opened) ++
      ["--ro-bind"; "/lib"; "/run/osbuild/lib"] ++
      ["--bind"; "/srv/a"; "b"; "/in"] ++
      ["--ro-bind"; "/etc/pki"] ++
      ["--dir"; "/run/osbuild/api"] ++
      ["--"; "/run/osbuild/lib/runners/org.osbuild.linux"; "true"] /\
    ~ parsed_as_pair "/srv/a:b:/in" /\ ~ parsed_as_pair "/etc/pki".
Proof.
  eexists _, _. split; [vm_compute; reflexivity|]. split; [vm_compute; reflexivity|].
  split; intros (src & dst & H); vm_compute in H; discriminate H.
Qed.

(** ** Output of the child *)

Lemma logged_app a b : logged (a ++ b) = logged a ++ logged b.
Proof. apply omap_app. Qed.

Lemma logged_logs txts : logged (EvLog <$> txts) = txts.
Proof.
  induction txts as [|t l IH]; [reflexivity|].
  rewrite fmap_cons. unfold logged in *. cbn [omap list_omap]. rewrite IH. reflexivity.
Qed.

(** Whenever [run] returns, its output is the decoding of everything the
    child wrote, both views show it, and the monitor has received it piece
    by piece. *)
Lemma run_output argv binds ro st r st' :
  run argv binds ro st = (inr r, st') ->
  exists cmd c,
    h_spawn (os st) cmd = inr c /\
    Utf8.decode (emitted c) = Some (output r) /\
    stdout r = output r /\ stderr r = output r /\
    returncode r = status c /\
    concat (logged (h_trace (os st'))) = concat (logged (h_trace (os st))) ++ output r.
Proof.
  intros H. apply run_inr in H as (cmd & c & txts & last & _ & _ & Hsp & Hall & Hlast & -> & ->).
  exists cmd, c. repeat split; try assumption.
  - unfold emitted. simpl. apply decode_app; [apply decode_concat; assumption|assumption].
  - simpl. rewrite logged_app. change (EvSpawn cmd :: ?l) with ([EvSpawn cmd] ++ l).
    rewrite !logged_app, logged_logs. simpl. rewrite !concat_app. simpl.
    rewrite app_nil_r. reflexivity.
Qed.

(** It does return when the environment is open, the command can be
    composed and spawned, and every read decodes on its own. *)
Lemma read_loop_total pipe :
  forall data st,
    Forall (fun buf => is_Some (Utf8.decode buf)) (consumed pipe) ->
    exists data' st', read_loop pipe data st = (inr data', st').
Proof.
  induction pipe as [|buf later IH]; intros data st Hall; [simpl; unfold ret; eauto|].
  destruct buf as [|b0 buf]; [simpl; unfold ret; eauto|].
  change (consumed ((b0 :: buf) :: later)) with ((b0 :: buf) :: consumed later) in Hall.
  apply Forall_cons in Hall as [[txt Htxt] Hall].
  change (read_loop ((b0 :: buf) :: later) data)
    with (let! txt := decode (b0 :: buf) in
          do! monitor_log txt in read_loop later (data ++ txt)).
  unfold bind at 1, decode. rewrite Htxt. unfold ret at 1.
  unfold bind at 1, monitor_log, perform. apply IH. exact Hall.
Qed.

Lemma bind_ok {A B} (m : M A) (k : A -> M B) st x st' :
  m st = (inr x, st') -> bind m k st = k x st'.
Proof. intros H. unfold bind. rewrite H. reflexivity. Qed.

Lemma Popen_ok cmd c st :
  has_dirs st -> h_spawn (os st) cmd = inr c ->
  Popen cmd st = (inr c, on_host (record (EvSpawn cmd)) st).
Proof.
  intros [[d Hd] [v Hv]] Hsp. unfold Popen.
  rewrite (bind_ok (gets id) _ st (self st) st eq_refl).
  replace (Popen_args_ok (self st)) with true
    by (unfold Popen_args_ok; rewrite Hd, Hv; reflexivity).
  cbn [negb]. rewrite (bind_ok host_ _ st (os st) st eq_refl). rewrite Hsp.
  reflexivity.
Qed.

Lemma run_total argv binds ro st cmd c :
  is_open st ->
  command (self st) (os st) argv binds ro = inr cmd ->
  has_dirs st ->
  h_spawn (os st) cmd = inr c ->
  Forall (fun buf => is_Some (Utf8.decode buf)) (consumed (reads c)) ->
  is_Some (Utf8.decode (rest c)) ->
  exists r st', run argv binds ro st = (inr r, st').
Proof.
  intros [s Hs] Hc Hdirs Hsp Hall [last Hlast].
  unfold run.
  rewrite (bind_ok (gets _exitstack) _ st (_exitstack (self st)) st eq_refl), Hs.
  rewrite (bind_ok (gets id) _ st (self st) st eq_refl).
  rewrite (bind_ok host_ _ st (os st) st eq_refl), Hc.
  rewrite (bind_ok _ _ _ _ _ (Popen_ok _ _ _ Hdirs Hsp)).
  destruct (read_loop_total (reads c) [] (on_host (record (EvSpawn cmd)) st) Hall)
    as (data & st1 & Hloop).
  rewrite (bind_ok _ _ _ _ _ Hloop).
  unfold decode. rewrite Hlast.
  rewrite (bind_ok (ret last) _ st1 last st1 eq_refl).
  unfold monitor_log, perform, bind, ret. eauto.
Qed.

(** C9.  A child writes the two bytes of "é"; its parent sees them in two
    reads.  The text emitted is "é", yet [run] returns nothing: the first
    read does not decode on its own, [UnicodeDecodeError] is raised out of
    the loop, and the monitor has been told nothing.  Had the same two
    bytes arrived in one read, [run] would have returned "é". *)
Theorem run_split_character :
  let st := on_host (with_spawn (fun _ => inr Scenario.accent_child)) Scenario.opened in
  let st1 := on_host (with_spawn (fun _ => inr Scenario.accent_child_whole))
               Scenario.opened in
  emitted Scenario.accent_child = emitted Scenario.accent_child_whole /\
  Utf8.decode (emitted Scenario.accent_child) = Some [0xE9] /\
  outcome (run ["true"] None None) st = inl UnicodeDecodeError /\
  logged (h_trace (os (after (run ["true"] None None) st))) = [] /\
  (exists r, outcome (run ["true"] None None) st1 = inr r /\ output r = [0xE9]).
Proof. vm_compute. eauto 10. Qed.

(** ** Calls the specification wants refused *)

(** C3.  [__exit__] on an environment that is not open raises
    [AttributeError], from calling [close] on [None], and changes
    nothing. *)
Theorem exit_when_closed (st : state) :
  _exitstack (self st) = None ->
  __exit__ st =
    (inl (AttributeError "'NoneType' object has no attribute 'close'"), st).
Proof.
  intros H. unfold __exit__, the_exitstack, bind, gets. rewrite H. reflexivity.
Qed.

Lemma exit_when_closed_witness :
  __exit__ Scenario.fresh =
    (inl (AttributeError "'NoneType' object has no attribute 'close'"), Scenario.fresh).
Proof. apply (exit_when_closed Scenario.fresh). reflexivity. Defined.

Lemma exit_when_closed_not_silent : ~ closes_silently Scenario.fresh.
Proof. unfold closes_silently. vm_compute. discriminate. Qed.

Lemma register_api_self a st :
  self (after (register_api a) st) = set_apis (_apis (self st) ++ [a]) (self st).
Proof.
  unfold register_api, after, bind, update, gets, on_self. cbn [self set_apis _exitstack].
  destruct (_exitstack (self st)) as [s|]; [|reflexivity].
  unfold enter_context_api, api_enter, bind. destruct (enter_ok a); reflexivity.
Qed.

Lemma register_api_outcome a st :
  outcome (register_api a) st =
    match _exitstack (self st) with
    | Some _ => if enter_ok a then inr tt else inl (EndpointError (endpoint a))
    | None => inr tt
    end.
Proof.
  unfold register_api, outcome, bind, update, gets, on_self. cbn [self set_apis _exitstack].
  destruct (_exitstack (self st)) as [s|]; [|reflexivity].
  unfold enter_context_api, api_enter, bind. destruct (enter_ok a); reflexivity.
Qed.

(** C5.  [register_api] does not compare names.  An endpoint whose name
    is already registered is appended like any other: the registrations
    made before keep their places, the call raises only if the
    environment is open and entering the endpoint's own context fails,
    and [run] will emit one more bind, to a path already bound. *)
Theorem register_api_appends (st : state) (a : api) :
  endpoint a ∈ endpoint <$> _apis (self st) ->
  outcome (register_api a) st =
    match _exitstack (self st) with
    | Some _ => if enter_ok a then inr tt else inl (EndpointError (endpoint a))
    | None => inr tt
    end /\
  _apis (self (after (register_api a) st)) = _apis (self st) ++ [a] /\
  api_mounts (self (after (register_api a) st)) =
    api_mounts (self st) ++ api_bind a.
Proof.
  intros _. rewrite register_api_self. split; [apply register_api_outcome|].
  split; [reflexivity|].
  unfold api_mounts. cbn [_apis set_apis].
  rewrite flat_map_app. cbn [flat_map]. rewrite app_nil_r, <- app_assoc.
  reflexivity.
Qed.

Lemma register_api_appends_witness :
  let st := after (register_api Scenario.remoteloop) Scenario.fresh in
  outcome (register_api Scenario.remoteloop') st = inr tt /\
  _apis (self (after (register_api Scenario.remoteloop') st))
    = [Scenario.remoteloop; Scenario.remoteloop'].
Proof.
  intros st.
  destruct (register_api_appends st Scenario.remoteloop') as (H1 & H2 & _).
  - vm_compute. apply list_elem_of_here.
  - split; [exact H1 | exact H2].
Defined.

Lemma register_api_duplicate_accepted :
  ~ rejects_duplicate Scenario.remoteloop'
      (after (register_api Scenario.remoteloop) Scenario.fresh).
Proof. intros [[e He] _]. vm_compute in He. discriminate He. Qed.

(** ** What the system calls do when they succeed *)

Lemma lstat_insert_None h p x q :
  lstat (with_fs <[p := x]> h) q = None -> lstat h q = None.
Proof.
  unfold lstat, with_fs. simpl. destruct (h_tmpfs h !! q); [discriminate|].
  destruct (decide (p = q)) as [->|Hne].
  - rewrite lookup_insert_eq. discriminate.
  - rewrite lookup_insert_ne by assumption. auto.
Qed.

Lemma makedirs_inr p st st' :
  makedirs p st = (inr tt, st') ->
  st' = st \/
  st' = on_host (fun h => record (EvMakedirs p) (with_fs <[p := IDir]> h)) st.
Proof.
  unfold makedirs. intros H.
  apply bind_inr in H as (h & st1 & Hh & H). injection Hh as <- <-.
  destruct (h_denied (os st) (SysMakedirs p)); [discriminate|].
  destruct (isdir (os st) p).
  - injection H as <-. auto.
  - destruct (lstat (os st) p); [discriminate|].
    injection H as <-. auto.
Qed.

Lemma pick_name_fresh h dir prefix cands name later :
  pick_name h dir prefix cands = Some (name, later) -> lstat h name = None.
Proof.
  induction cands as [|n cands IH]; simpl; [discriminate|].
  destruct (lstat h (Path.join dir (prefix +:+ n))) eqn:E; [exact IH|].
  intros H. injection H as <- <-. exact E.
Qed.

Lemma TemporaryDirectory_inr prefix dir st name st' :
  TemporaryDirectory prefix dir st = (inr name, st') ->
  exists later,
    lstat (os st) name = None /\
    st' = on_host (fun h => record (EvMkdtemp name)
                              (with_names later (with_fs <[name := IDir]> h))) st.
Proof.
  unfold TemporaryDirectory. intros H.
  apply bind_inr in H as (h & st1 & Hh & H). injection Hh as <- <-.
  destruct (h_denied (os st) (SysMkdtemp dir)); [discriminate|].
  destruct (negb (isdir (os st) dir)); [discriminate|].
  destruct (pick_name (os st) dir prefix (h_names (os st))) as [[n later]|] eqn:E;
    [|discriminate].
  apply bind_inr in H as ([] & st1 & Hp & H).
  injection Hp as <-. injection H as <- <-.
  exists later. split; [exact (pick_name_fresh _ _ _ _ _ _ E)|reflexivity].
Qed.

Lemma the_exitstack_inr method st s st' :
  the_exitstack method st = (inr s, st') ->
  _exitstack (self st) = Some s /\ st' = st.
Proof.
  unfold the_exitstack. intros H.
  apply bind_inr in H as (es & st1 & Hes & H). injection Hes as <- <-.
  destruct (_exitstack (self st)); [|discriminate].
  injection H as <- <-. auto.
Qed.

Lemma mount_tmpfs_inr target st st' :
  mount_tmpfs target st = (inr tt, st') ->
  st' = on_host (fun h => record (EvMount target) (with_tmpfs <[target := []]> h)) st.
Proof.
  unfold mount_tmpfs. intros H.
  apply bind_inr in H as (h & st1 & Hh & H). injection Hh as <- <-.
  destruct (h_denied (os st) (SysMount target) || negb (isdir (os st) target))%bool;
    [discriminate|].
  injection H as <-. reflexivity.
Qed.

Lemma mknod_inr path name mode major minor nodes st st' :
  h_tmpfs (os st) !! path = Some nodes ->
  _mknod path name mode major minor st = (inr tt, st') ->
  st' = on_host (fun h =>
          record (EvMknod (Path.join path name)
                          (Z.lor (Stat.S_IMODE mode) Stat.S_IFCHR)
                          (Stat.makedev major minor))
                 (with_tmpfs <[path := nodes ++
                     [made (h_umask (os st)) (chr name mode major minor)]]> h)) st.
Proof.
  unfold _mknod, os_mknod. intros Hn H.
  apply bind_inr in H as (h & st1 & Hh & H). injection Hh as <- <-.
  destruct (h_denied (os st) _); [discriminate|].
  rewrite Hn in H.
  destruct (bool_decide _); [discriminate|].
  injection H as <-. reflexivity.
Qed.

Lemma on_stacks_id s l st :
  stacks st !! s = Some l -> on_stacks <[s := l]> st = st.
Proof.
  intros H. destruct st as [b ss h]. unfold on_stacks. simpl in *.
  rewrite (list_insert_id _ _ _ H). reflexivity.
Qed.

Lemma enter_apis_inr apis :
  forall st s l st',
    _exitstack (self st) = Some s ->
    stacks st !! s = Some l ->
    for_each apis (fun a => let! es := the_exitstack "enter_context" in
                            enter_context_api es a) st = (inr tt, st') ->
    Forall (fun a => enter_ok a = true) apis /\
    st' = on_stacks <[s := (CbApi <$> rev apis) ++ l]>
            (on_host (extend ((fun a => EvEnter (endpoint a)) <$> apis)) st).
Proof.
  induction apis as [|a apis IH]; intros st s l st' Hs Hl H.
  - injection H as <-. split; [constructor|].
    simpl. rewrite extend_nil. symmetry. apply on_stacks_id. exact Hl.
  - simpl in H. apply bind_inr in H as ([] & st1 & Ha & H).
    apply bind_inr in Ha as (es & st0 & Hes & Ha).
    apply the_exitstack_inr in Hes as [Hes ->].
    rewrite Hs in Hes. injection Hes as <-.
    unfold enter_context_api, api_enter in Ha.
    destruct (enter_ok a) eqn:Hok.
    2:{ unfold bind, raise in Ha. discriminate Ha. }
    unfold bind, perform, push, callbacks_of, set_callbacks in Ha. simpl in Ha.
    unfold bind in Ha. simpl in Ha.
    rewrite Hl in Ha. simpl in Ha. injection Ha as <-.
    eapply IH in H as [Hall ->].
    + split; [constructor; assumption|].
      unfold on_stacks, on_host, record, extend. simpl. f_equal.
      * rewrite list_insert_insert_eq. f_equal.
        rewrite fmap_app, <- app_assoc. reflexivity.
      * f_equal. rewrite <- app_assoc. reflexivity.
    + exact Hs.
    + simpl. apply list_lookup_insert_eq. eapply lookup_lt_Some. exact Hl.
Qed.

Lemma makedirs_facts p st st' :
  makedirs p st = (inr tt, st') ->
  self st' = self st /\ stacks st' = stacks st /\
  h_tmpfs (os st') = h_tmpfs (os st) /\
  (forall q, lstat (os st') q = None -> lstat (os st) q = None) /\
  exists mk, h_trace (os st') = h_trace (os st) ++ mk /\
             (mk = [] \/ mk = [EvMakedirs p]).
Proof.
  intros H. apply makedirs_inr in H as [-> | ->].
  - repeat split; auto. exists []. rewrite app_nil_r. auto.
  - repeat split; [intros q; apply lstat_insert_None|]. eauto.
Qed.

Lemma makedirs_umask p st st' :
  makedirs p st = (inr tt, st') -> h_umask (os st') = h_umask (os st).
Proof. intros H. apply makedirs_inr in H as [-> | ->]; reflexivity. Qed.

Lemma pop_all_eq s st :
  pop_all s st =
    (inr (length (stacks st)),
     on_stacks (fun L => <[s := []]> (<[length L := default [] (L !! s)]> (L ++ [[]]))) st).
Proof. reflexivity. Qed.

Lemma enter_body_inr st s st' :
  _exitstack (self st) = Some s ->
  stacks st !! s = Some [] ->
  enter_body st = (inr tt, st') ->
  exists d v,
    self st' = set_exitstack (Some (length (stacks st)))
                 (set_var (Some v) (set_dev (Some d) (self st))) /\
    stacks st' = <[s := []]> (stacks st) ++
                 [(CbApi <$> rev (_apis (self st))) ++
                  [CbUmount; CbCleanup v; CbCleanup d]] /\
    h_tmpfs (os st') =
      <[d := made (h_umask (os st)) <$> device_nodes]> (h_tmpfs (os st)) /\
    lstat (os st) d = None /\ lstat (os st) v = None /\
    Forall (fun a => enter_ok a = true) (_apis (self st)) /\
    exists mk1 mk2,
      h_trace (os st') =
        h_trace (os st) ++ mk1 ++ [EvMkdtemp d] ++ mk2 ++
        [EvMkdtemp v; EvMount d] ++ (node_event d <$> device_nodes) ++
        ((fun a => EvEnter (endpoint a)) <$> _apis (self st)) /\
      (mk1 = [] \/ mk1 = [EvMakedirs (_rundir (self st))]) /\
      (mk2 = [] \/ mk2 = [EvMakedirs (_vardir (self st))]).
Proof.
  intros Hs Hl H. unfold enter_body in H.
  assert (Hlen : (s < length (stacks st))%nat) by (eapply lookup_lt_Some; exact Hl).
  apply bind_inr in H as (rundir & st1 & E & H). injection E as <- <-.
  apply bind_inr in H as ([] & st1 & Hmk1 & H).
  pose proof (makedirs_umask _ _ _ Hmk1) as Hum1.
  apply makedirs_facts in Hmk1 as (Hself1 & Hst1 & Htm1 & Hls1 & mk1 & Htr1 & Hmk1).
  apply bind_inr in H as (dev_ & st2 & Hd & H).
  apply TemporaryDirectory_inr in Hd as (later1 & Hfresh1 & ->).
  apply bind_inr in H as (es & st3 & E & H).
  apply the_exitstack_inr in E as [E ->]. norm.
  rewrite Hself1, Hs in E. injection E as <-.
  apply bind_inr in H as (d & st3 & Hd & H).
  unfold enter_context_tmpdir, push, callbacks_of, set_callbacks, bind, ret in Hd.
  norm. rewrite Hst1, Hl in Hd. cbn [default from_option] in Hd.
  injection Hd as <- <-.
  apply bind_inr in H as ([] & st3 & E & H). injection E as <-. norm.
  apply bind_inr in H as (vardir & st3 & E & H). injection E as <- <-. norm.
  apply bind_inr in H as ([] & st3 & Hmk2 & H).
  pose proof (makedirs_umask _ _ _ Hmk2) as Hum2.
  apply makedirs_facts in Hmk2 as (Hself2 & Hst2 & Htm2 & Hls2 & mk2 & Htr2 & Hmk2).
  norm. rewrite Hself1 in Hself2. rewrite Hst1 in Hst2.
  cbn [h_tmpfs record extend with_names with_fs] in Htm2. rewrite Htm1 in Htm2.
  cbn [h_trace record extend with_names with_fs _vardir set_dev] in Htr2, Hmk2.
  rewrite Htr1 in Htr2. rewrite ?Hself1 in Hmk2.
  apply bind_inr in H as (var_ & st4 & Hv & H).
  apply TemporaryDirectory_inr in Hv as (later2 & Hfresh2 & ->).
  apply bind_inr in H as (es & st5 & E & H).
  apply the_exitstack_inr in E as [E ->]. norm.
  rewrite Hself2 in E. cbn in E. rewrite Hs in E. injection E as <-.
  apply bind_inr in H as (v & st5 & Hv & H).
  unfold enter_context_tmpdir, push, callbacks_of, set_callbacks, bind, ret in Hv.
  norm. rewrite Hst2 in Hv.
  rewrite list_lookup_insert_eq in Hv by assumption.
  cbn [default from_option id] in Hv.
  injection Hv as <- <-.
  apply bind_inr in H as ([] & st5 & E & H). injection E as <-. norm.
  apply bind_inr in H as ([] & st5 & Hm & H).
  apply mount_tmpfs_inr in Hm as ->. norm.
  apply bind_inr in H as (es & st5 & E & H).
  apply the_exitstack_inr in E as [E ->]. norm.
  rewrite Hself2 in E. cbn in E. rewrite Hs in E. injection E as <-.
  apply bind_inr in H as ([] & st5 & E & H).
  unfold push, callbacks_of, set_callbacks, bind, ret in E. norm.
  rewrite list_lookup_insert_eq in E
    by (rewrite Hst2, length_insert; assumption).
  cbn [default from_option id] in E.
  injection E as <-.
  do 6 (apply bind_inr in H as ([] & st5 & Hk & H);
        eapply mknod_inr in Hk;
        [|cbn [os on_host on_self on_stacks h_tmpfs record extend with_tmpfs];
          apply lookup_insert_eq];
        subst st5; norm).
  apply bind_inr in H as (apis & st5 & E & H). injection E as <- <-. norm.
  apply bind_inr in H as ([] & st5 & Ha & H).
  eapply enter_apis_inr in Ha as [Hall Ha].
  2:{ norm. rewrite Hself2. cbn. exact Hs. }
  2:{ norm. apply list_lookup_insert_eq. rewrite length_insert, Hst2, length_insert.
      assumption. }
  subst st5. norm.
  apply bind_inr in H as (es & st5 & E & H).
  apply the_exitstack_inr in E as [E ->]. norm.
  rewrite Hself2 in E. cbn in E. rewrite Hs in E. injection E as <-.
  apply bind_inr in H as (s' & st5 & E & H).
  rewrite pop_all_eq in E. injection E as <- <-.
  injection H as <-. norm.
  rewrite Hself2, Hst2.
  exists dev_, var_. split; [|split; [|split; [|split; [|split; [|split]]]]].
  - rewrite !length_insert. reflexivity.
  - cbn [_apis set_dev set_var]. rewrite !list_insert_insert_eq, !length_insert.
    rewrite list_lookup_insert_eq by assumption. cbn [default from_option id].
    rewrite insert_app_r_alt by (rewrite length_insert; lia).
    rewrite length_insert, Nat.sub_diag. cbn [insert list_insert].
    rewrite insert_app_l by (rewrite length_insert; assumption).
    rewrite list_insert_insert_eq. reflexivity.
  - cbn [h_tmpfs h_umask record extend with_tmpfs with_names with_fs] in *.
    rewrite !insert_insert_eq, Htm2, Hum2, Hum1. reflexivity.
  - apply Hls1. exact Hfresh1.
  - apply Hls1. apply Hls2 in Hfresh2. exact (lstat_insert_None _ _ _ _ Hfresh2).
  - rewrite Hself2 in Hall. exact Hall.
  - exists mk1, mk2. split; [|split; assumption].
    cbn [h_trace record extend with_tmpfs with_names with_fs _apis set_dev set_var].
    rewrite Htr2, <- !app_assoc. reflexivity.
Qed.

(** ** Code that leaves the object alone *)

Lemma keeps_ret {A} (x : A) : keeps_self (ret x).
Proof. intros st. reflexivity. Qed.

Lemma keeps_raise {A} e : keeps_self (@raise A e).
Proof. intros st. reflexivity. Qed.

Lemma keeps_gets {A} (f : BuildRoot -> A) : keeps_self (gets f).
Proof. intros st. reflexivity. Qed.

Lemma keeps_host : keeps_self host_.
Proof. intros st. reflexivity. Qed.

Lemma keeps_perform f : keeps_self (perform f).
Proof. intros st. reflexivity. Qed.

Lemma keeps_callbacks_of s : keeps_self (callbacks_of s).
Proof. intros st. reflexivity. Qed.

Lemma keeps_set_callbacks s l : keeps_self (set_callbacks s l).
Proof. intros st. reflexivity. Qed.

Lemma keeps_ExitStack : keeps_self ExitStack.
Proof. intros st. reflexivity. Qed.

Lemma keeps_bind {A B} (m : M A) (k : A -> M B) :
  keeps_self m -> (forall x, keeps_self (k x)) -> keeps_self (bind m k).
Proof.
  intros Hm Hk st. unfold bind. specialize (Hm st).
  destruct (m st) as [[e|x] st1]; simpl in *; [exact Hm|].
  rewrite Hk. exact Hm.
Qed.

Lemma keeps_try {A} (m : M A) : keeps_self m -> keeps_self (try m).
Proof.
  intros Hm st. unfold try. specialize (Hm st). destruct (m st). exact Hm.
Qed.

Ltac keeps :=
  repeat first
    [ apply keeps_ret | apply keeps_raise | apply keeps_gets | apply keeps_host
    | apply keeps_perform | apply keeps_callbacks_of | apply keeps_set_callbacks
    | apply keeps_ExitStack | apply keeps_try
    | solve [auto with keeps]
    | apply keeps_bind; [|intros ?]
    | match goal with
      | |- keeps_self (if ?c then _ else _) => destruct c
      | |- keeps_self (match ?x with _ => _ end) => destruct x
      end ].

Lemma keeps_makedirs p : keeps_self (makedirs p).
Proof. unfold makedirs. keeps. Qed.

Lemma keeps_TemporaryDirectory prefix dir : keeps_self (TemporaryDirectory prefix dir).
Proof. unfold TemporaryDirectory. keeps. Qed.

Lemma keeps_rmtree name : keeps_self (rmtree name).
Proof. unfold rmtree. keeps. Qed.

Lemma keeps_mount_tmpfs target : keeps_self (mount_tmpfs target).
Proof. unfold mount_tmpfs. keeps. Qed.

Lemma keeps_umount_lazy target : keeps_self (umount_lazy target).
Proof. unfold umount_lazy. keeps. Qed.

Lemma keeps_mknod path name mode major minor :
  keeps_self (_mknod path name mode major minor).
Proof. unfold _mknod, os_mknod. keeps. Qed.

Lemma keeps_api_enter a : keeps_self (api_enter a).
Proof. unfold api_enter. keeps. Qed.

Lemma keeps_api_exit a : keeps_self (api_exit a).
Proof. unfold api_exit. keeps. Qed.

#[local] Hint Resolve keeps_makedirs keeps_TemporaryDirectory keeps_rmtree
  keeps_mount_tmpfs keeps_umount_lazy keeps_mknod keeps_api_enter keeps_api_exit
  : keeps.

Lemma keeps_push s cb : keeps_self (push s cb).
Proof. unfold push. keeps. Qed.

#[local] Hint Resolve keeps_push : keeps.

Lemma keeps_enter_context_tmpdir s name : keeps_self (enter_context_tmpdir s name).
Proof. unfold enter_context_tmpdir. keeps. Qed.

Lemma keeps_enter_context_api s a : keeps_self (enter_context_api s a).
Proof. unfold enter_context_api. keeps. Qed.

Lemma keeps_pop_all s : keeps_self (pop_all s).
Proof. unfold pop_all. keeps. Qed.

Lemma keeps_call cb : keeps_self (call cb).
Proof. unfold call. keeps. Qed.

#[local] Hint Resolve keeps_enter_context_tmpdir keeps_enter_context_api
  keeps_pop_all keeps_call : keeps.

Lemma keeps_unwind s cbs : forall raised, keeps_self (unwind s cbs raised).
Proof. induction cbs as [|cb cbs IH]; intros raised; simpl; keeps; try apply IH. Qed.

#[local] Hint Resolve keeps_unwind : keeps.

Lemma keeps_es_exit s : keeps_self (es_exit s).
Proof. unfold es_exit. keeps. Qed.

#[local] Hint Resolve keeps_es_exit : keeps.

Lemma keeps_the_exitstack method : keeps_self (the_exitstack method).
Proof. unfold the_exitstack. keeps. Qed.

Lemma keeps_decode buf : keeps_self (decode buf).
Proof. unfold decode. keeps. Qed.

Lemma keeps_monitor_log txt : keeps_self (monitor_log txt).
Proof. unfold monitor_log. keeps. Qed.

Lemma keeps_Popen cmd : keeps_self (Popen cmd).
Proof. unfold Popen. keeps. Qed.

#[local] Hint Resolve keeps_the_exitstack keeps_decode keeps_monitor_log keeps_Popen
  : keeps.

Lemma keeps_read_loop pipe : forall data, keeps_self (read_loop pipe data).
Proof.
  induction pipe as [|buf later IH]; intros data; [simpl; keeps|].
  destruct buf as [|b0 buf]; [simpl; keeps|].
  change (read_loop ((b0 :: buf) :: later) data)
    with (let! txt := decode (b0 :: buf) in
          do! monitor_log txt in read_loop later (data ++ txt)).
  keeps; try apply IH.
Qed.

#[local] Hint Resolve keeps_read_loop : keeps.

Lemma keeps_run argv binds ro : keeps_self (run argv binds ro).
Proof. unfold run. keeps. Qed.

(** ** Predicates on the object that code maintains *)

Lemma preserves_keeps {A} (Q : BuildRoot -> Prop) (m : M A) :
  keeps_self m -> preserves (fun st => Q (self st)) m.
Proof. intros Hm st H. rewrite Hm. exact H. Qed.

Lemma preserves_bind {A B} P (m : M A) (k : A -> M B) :
  preserves P m -> (forall x, preserves P (k x)) -> preserves P (bind m k).
Proof.
  intros Hm Hk st H. unfold bind. specialize (Hm st H).
  destruct (m st) as [[e|x] st1]; simpl in *; [exact Hm|].
  apply Hk. exact Hm.
Qed.

Lemma preserves_with {A} P s (body : M A) :
  preserves P body -> preserves P (es_exit s) -> preserves P (with_ s body).
Proof.
  intros Hb Hx st H. unfold with_. specialize (Hb st H).
  destruct (body st) as [[e|x] st1]; simpl in *;
    specialize (Hx st1 Hb); destruct (es_exit s st1) as [[e'|[]] st2]; exact Hx.
Qed.

Lemma preserves_for_each {A} P (l : list A) (body : A -> M unit) :
  (forall x, preserves P (body x)) -> preserves P (for_each l body).
Proof.
  intros Hb. induction l as [|x l IH]; simpl.
  - intros st H. exact H.
  - apply preserves_bind; [apply Hb|intros _; exact IH].
Qed.

Lemma open_update f :
  (forall b, is_Some (_exitstack b) -> is_Some (_exitstack (f b))) ->
  preserves is_open (update f).
Proof. intros Hf st H. apply Hf. exact H. Qed.

Lemma open_keeps {A} (m : M A) : keeps_self m -> preserves is_open m.
Proof. intros Hm. exact (preserves_keeps (fun b => is_Some (_exitstack b)) m Hm). Qed.

Lemma open_enter_body : preserves is_open enter_body.
Proof.
  unfold enter_body.
  repeat first
    [ apply open_update; intros b Hb; solve [exact Hb | cbn; eauto]
    | apply open_keeps; solve [keeps]
    | apply preserves_for_each; intros ?
    | apply preserves_bind; [|intros ?] ].
Qed.

(** However [__enter__] ends, it leaves a reference to an exit stack
    behind. *)
Lemma enter_leaves_context st : is_open (after __enter__ st).
Proof.
  unfold after, __enter__.
  assert (H : preserves is_open
                (with_ (length (stacks st)) enter_body)).
  { apply preserves_with; [exact open_enter_body|]. apply open_keeps. keeps. }
  unfold bind, ExitStack, update. simpl. apply H.
  unfold is_open. cbn. eauto.
Qed.

(** ** A successful [__enter__] *)

Lemma with_inr {A} s (body : M A) st x st' :
  with_ s body st = (inr x, st') ->
  exists st1, body st = (inr x, st1) /\ es_exit s st1 = (inr tt, st').
Proof.
  unfold with_. destruct (body st) as [[e|y] st1].
  - destruct (es_exit s st1) as [[e'|[]] st2]; discriminate.
  - destruct (es_exit s st1) as [[e'|[]] st2] eqn:E; [discriminate|].
    intros H. injection H as <- <-. eauto.
Qed.

Lemma es_exit_empty s st :
  default [] (stacks st !! s) = [] -> es_exit s st = (inr tt, st).
Proof.
  intros H. unfold es_exit, bind, callbacks_of. rewrite H. reflexivity.
Qed.

Lemma enter_inr st st' :
  __enter__ st = (inr tt, st') ->
  exists d v,
    self st' = set_exitstack (Some (S (length (stacks st))))
                 (set_var (Some v) (set_dev (Some d) (self st))) /\
    stacks st' = stacks st ++
                 [[]; (CbApi <$> rev (_apis (self st))) ++
                      [CbUmount; CbCleanup v; CbCleanup d]] /\
    h_tmpfs (os st') =
      <[d := made (h_umask (os st)) <$> device_nodes]> (h_tmpfs (os st)) /\
    lstat (os st) d = None /\ lstat (os st) v = None /\
    Forall (fun a => enter_ok a = true) (_apis (self st)) /\
    exists mk1 mk2,
      h_trace (os st') =
        h_trace (os st) ++ mk1 ++ [EvMkdtemp d] ++ mk2 ++
        [EvMkdtemp v; EvMount d] ++ (node_event d <$> device_nodes) ++
        ((fun a => EvEnter (endpoint a)) <$> _apis (self st)) /\
      (mk1 = [] \/ mk1 = [EvMakedirs (_rundir (self st))]) /\
      (mk2 = [] \/ mk2 = [EvMakedirs (_vardir (self st))]).
Proof.
  unfold __enter__. intros H.
  apply bind_inr in H as (s & st0 & E & H). injection E as <- <-.
  apply bind_inr in H as ([] & st0 & E & H). injection E as <-.
  apply with_inr in H as (st1 & Hb & Hx).
  assert (Hlook : (stacks st ++ [[]]) !! length (stacks st) = Some ([] : list callback)).
  { rewrite lookup_app_r by lia. rewrite Nat.sub_diag. reflexivity. }
  apply enter_body_inr with (s := length (stacks st)) in Hb; [|reflexivity|exact Hlook].
  destruct Hb as (d & v & Hself & Hst & Htm & Hfresh & Hfresh' & Hall & Htr). norm.
  cbn [_apis set_exitstack _rundir _vardir] in *.
  rewrite (list_insert_id _ _ _ Hlook) in Hst.
  rewrite es_exit_empty in Hx.
  2:{ rewrite Hst, lookup_app_l by (rewrite length_app; simpl; lia).
      rewrite Hlook. reflexivity. }
  injection Hx as <-.
  exists d, v. repeat split; try assumption.
  - rewrite Hself, length_app. simpl. rewrite Nat.add_1_r. reflexivity.
  - rewrite Hst, <- app_assoc. reflexivity.
Qed.

Lemma device_nodes_standard : describe <$> device_nodes = standard_nodes.
Proof. vm_compute. reflexivity. Qed.

(** ** The mask *)

Lemma ldiff_land a m f : Z.land (Z.ldiff a m) f = Z.ldiff (Z.land a f) m.
Proof.
  apply Z.bits_inj'. intros n _.
  rewrite Z.land_spec, !Z.ldiff_spec, Z.land_spec.
  destruct (Z.testbit a n), (Z.testbit m n), (Z.testbit f n); reflexivity.
Qed.

Lemma ldiff_disjoint a m : Z.land a m = 0 -> Z.ldiff a m = a.
Proof.
  intros H. apply Z.bits_inj'. intros n _. rewrite Z.ldiff_spec.
  assert (Hn : Z.testbit (Z.land a m) n = false) by (rewrite H; apply Z.bits_0).
  rewrite Z.land_spec in Hn.
  destruct (Z.testbit a n), (Z.testbit m n); try reflexivity; discriminate Hn.
Qed.

Lemma ldiff_same a m : Z.ldiff a m = a -> Z.land a m = 0.
Proof.
  intros H. apply Z.bits_inj'. intros n _. rewrite Z.land_spec, Z.bits_0.
  assert (Hn : Z.testbit (Z.ldiff a m) n = Z.testbit a n) by (rewrite H; reflexivity).
  rewrite Z.ldiff_spec in Hn.
  destruct (Z.testbit a n), (Z.testbit m n); try reflexivity; discriminate Hn.
Qed.

(** The mask takes nothing from 0666 exactly when it has none of its
    bits. *)
Lemma umasked_0666 mask :
  umasked mask mode_0666 = mode_0666 <-> Z.land mask mode_0666 = 0.
Proof.
  unfold umasked, mode_0666.
  assert (E : Z.land 0x1B6 (Z.land mask 0x1FF) = Z.land mask 0x1B6).
  { rewrite (Z.land_comm mask), Z.land_assoc. apply Z.land_comm. }
  split; intros H.
  - rewrite <- E. apply ldiff_same. exact H.
  - apply ldiff_disjoint. rewrite E. exact H.
Qed.

(** The mask leaves the type of a node alone and clears its own bits of
    the permissions. *)
Lemma describe_made mask name major minor :
  describe (made mask (chr name 0x1B6 major minor)) =
    (name, true, umasked mask mode_0666,
     Stat.major (Stat.makedev major minor), Stat.minor (Stat.makedev major minor)).
Proof.
  unfold describe, made, chr. cbn [n_name n_mode n_device].
  change (Z.lor (Stat.S_IMODE 0x1B6) Stat.S_IFCHR) with 0x21B6.
  unfold Stat.S_ISCHR, Stat.S_IFMT, Stat.S_IMODE, umasked.
  rewrite !ldiff_land.
  change (Z.land 0x21B6 0xF000) with Stat.S_IFCHR.
  change (Z.land 0x21B6 0xFFF) with mode_0666.
  rewrite (ldiff_disjoint Stat.S_IFCHR).
  2:{ rewrite (Z.land_comm mask), Z.land_assoc. reflexivity. }
  rewrite Z.eqb_refl. reflexivity.
Qed.

Lemma describe_device_nodes mask :
  describe <$> (made mask <$> device_nodes) = nodes_with (umasked mask mode_0666).
Proof.
  unfold device_nodes. cbn [fmap list_fmap]. rewrite !describe_made. reflexivity.
Qed.

(** C6.  After a successful [__enter__] the device directory, a fresh
    tmpfs, holds six character devices and nothing else: [full] (1,7),
    [null] (1,3), [random] (1,8), [urandom] (1,9), [tty] (5,0) and [zero]
    (1,5), and [os.listdir] returns exactly their names.  Each was
    requested with permission bits 0666 and has those of them that the
    mask of the process leaves: the nodes have mode 0666 exactly when the
    mask has none of the bits of 0666. *)
Theorem enter_device_nodes (st st' : state) :
  __enter__ st = (inr tt, st') ->
  exists d nodes,
    dev (self st') = Some d /\
    h_tmpfs (os st') !! d = Some nodes /\
    describe <$> nodes = nodes_with (umasked (h_umask (os st)) mode_0666) /\
    (holds_standard_nodes d st' <-> Z.land (h_umask (os st)) mode_0666 = 0) /\
    (describe <$> device_nodes = standard_nodes /\
     exists before later,
       h_trace (os st') = before ++ (node_event d <$> device_nodes) ++ later) /\
    exists names,
      listdir (os st') d = inr names /\
      names ≡ₚ ["full"; "null"; "random"; "urandom"; "tty"; "zero"].
Proof.
  intros H. apply enter_inr in H
    as (d & v & Hself & _ & Htm & _ & _ & _ & mk1 & mk2 & Htr & _).
  set (mask := h_umask (os st)) in *.
  assert (Hd : h_tmpfs (os st') !! d = Some (made mask <$> device_nodes))
    by (rewrite Htm; apply lookup_insert_eq).
  exists d, (made mask <$> device_nodes). split; [rewrite Hself; reflexivity|].
  split; [exact Hd|]. split; [apply describe_device_nodes|]. split; [|split].
  - unfold holds_standard_nodes. rewrite Hd, <- umasked_0666. split.
    + intros (nodes & E & Hn). apply (inj Some) in E. subst nodes.
      rewrite describe_device_nodes in Hn. unfold standard_nodes, nodes_with in Hn.
      injection Hn as Hn. exact Hn.
    + intros E. eexists. split; [reflexivity|].
      rewrite describe_device_nodes, E. reflexivity.
  - split; [exact device_nodes_standard|].
    exists (h_trace (os st) ++ mk1 ++ [EvMkdtemp d] ++ mk2 ++ [EvMkdtemp v; EvMount d]).
    eexists. rewrite Htr, <- !app_assoc. reflexivity.
  - exists (n_name <$> device_nodes). split; [|reflexivity].
    unfold listdir. assert (Hl : lstat (os st') d = Some IDir)
      by (unfold lstat; rewrite Hd; reflexivity).
    unfold MAXSYMLINKS. cbn [realpath]. rewrite Hl, Hd. reflexivity.
Qed.

Lemma enter_device_nodes_witness :
  exists d,
    dev (self (after __enter__ Scenario.unmasked)) = Some d /\
    holds_standard_nodes d (after __enter__ Scenario.unmasked).
Proof.
  destruct (enter_device_nodes Scenario.unmasked (after __enter__ Scenario.unmasked))
    as (d & nodes & Hd & _ & _ & Hstd & _).
  - vm_compute. reflexivity.
  - exists d. split; [exact Hd|]. apply Hstd. vm_compute. reflexivity.
Defined.

(** Under the mask 022 the six nodes have mode 0644, not 0666. *)
Lemma enter_device_nodes_masked :
  __enter__ Scenario.fresh = (inr tt, Scenario.opened) /\
  h_umask (os Scenario.fresh) = 0x12 /\
  exists d nodes,
    dev (self Scenario.opened) = Some d /\
    h_tmpfs (os Scenario.opened) !! d = Some nodes /\
    describe <$> nodes = nodes_with 0x1A4 /\
    ~ holds_standard_nodes d Scenario.opened.
Proof.
  split; [vm_compute; reflexivity|]. split; [reflexivity|].
  eexists _, _. split; [vm_compute; reflexivity|].
  split; [vm_compute; reflexivity|]. split; [vm_compute; reflexivity|].
  intros (nodes & E & Hn). vm_compute in E. apply (inj Some) in E. subst nodes.
  vm_compute in Hn. discriminate Hn.
Qed.

(** ** The lifecycle *)

Lemma exit_self st :
  self (after __exit__ st) =
    match outcome __exit__ st with
    | inr _ => set_exitstack None (self st)
    | inl _ => self st
    end.
Proof.
  unfold after, outcome, __exit__, bind.
  destruct (the_exitstack "close" st) as [[e|s] st1] eqn:E1.
  - pose proof (keeps_the_exitstack "close" st) as K. rewrite E1 in K. exact K.
  - apply the_exitstack_inr in E1 as [_ ->].
    pose proof (keeps_es_exit s st) as K.
    destruct (es_exit s st) as [[e|[]] st2]; simpl in *.
    + exact K.
    + unfold update, on_self. simpl. rewrite K. reflexivity.
Qed.

Lemma init_iff root runner libdir var rundir ss h :
  dirs_iff_open {| self := __init__ root runner libdir var rundir;
                   stacks := ss; os := h |}.
Proof.
  unfold dirs_iff_open, has_dirs, is_open. simpl. split.
  - intros [[x Hx] _]. discriminate Hx.
  - intros [x Hx]. discriminate Hx.
Qed.

Lemma enter_iff st st' : __enter__ st = (inr tt, st') -> dirs_iff_open st'.
Proof.
  intros H. apply enter_inr in H as (d & v & Hself & _).
  unfold dirs_iff_open, has_dirs, is_open. rewrite Hself. simpl.
  split; intros _; eauto.
Qed.

(** C4.  What the code maintains is one direction of the invariant: an
    open environment has its two directory references set.  It holds of a
    new object and after a successful [__enter__] (where the two sides are
    even equivalent), and [__exit__], [register_api] and [run] keep it,
    whatever their outcome.  [__exit__], when it returns, resets the exit
    stack and leaves [dev] and [var] as they were. *)
Theorem open_has_dirs_maintained (st : state) :
  open_has_dirs st ->
  (forall root runner libdir var rundir,
     dirs_iff_open {| self := __init__ root runner libdir var rundir;
                      stacks := stacks st; os := os st |}) /\
  (forall st', __enter__ st = (inr tt, st') -> dirs_iff_open st') /\
  open_has_dirs (after __exit__ st) /\
  (forall a, open_has_dirs (after (register_api a) st)) /\
  (forall argv binds ro, open_has_dirs (after (run argv binds ro) st)) /\
  (outcome __exit__ st = inr tt ->
     ~ is_open (after __exit__ st) /\
     dev (self (after __exit__ st)) = dev (self st) /\
     var (self (after __exit__ st)) = var (self st)).
Proof.
  intros Hinv. split; [intros; apply init_iff|].
  split; [intros st'; apply enter_iff|].
  split; [|split; [|split]].
  - unfold open_has_dirs, has_dirs, is_open. rewrite exit_self.
    destruct (outcome __exit__ st); [exact Hinv|].
    simpl. intros [x Hx]. discriminate Hx.
  - intros a. unfold open_has_dirs, has_dirs, is_open.
    rewrite register_api_self. exact Hinv.
  - intros argv binds ro. unfold open_has_dirs, has_dirs, is_open, after.
    rewrite keeps_run. exact Hinv.
  - intros Hok. unfold is_open. rewrite exit_self, Hok. simpl.
    split; [intros [x Hx]; discriminate Hx|auto].
Qed.

Lemma open_has_dirs_maintained_witness :
  open_has_dirs (after __exit__ Scenario.opened) /\
  ~ is_open (after __exit__ Scenario.opened) /\
  dev (self (after __exit__ Scenario.opened)) = Some "/run/osbuild/osbuild-dev-k3x9".
Proof.
  destruct (open_has_dirs_maintained Scenario.opened) as (_ & _ & H1 & _ & _ & H2).
  - intros _. split; vm_compute; eauto.
  - split; [exact H1|]. destruct H2 as (Hc & Hd & _); [vm_compute; reflexivity|].
    split; [exact Hc|]. rewrite Hd. vm_compute. reflexivity.
Defined.

Lemma exit_breaks_iff :
  dirs_iff_open Scenario.opened /\
  outcome __exit__ Scenario.opened = inr tt /\
  ~ dirs_iff_open (after __exit__ Scenario.opened).
Proof.
  split; [|split].
  - split; intros _; vm_compute; eauto.
  - vm_compute. reflexivity.
  - intros [H _]. destruct H as [x Hx].
    + split; vm_compute; eauto.
    + vm_compute in Hx. discriminate Hx.
Qed.

(** C2.  [__enter__] does not look at whether the environment is open:
    its outcome on an open environment is its outcome on one that differs
    only in being closed.  Where it returns, it has made and mounted a new
    device directory with the six nodes, made a new data directory, and
    stored a new exit stack in the object, so that the stack the object
    referred to before is no longer the one [__exit__] will unwind. *)
Theorem enter_on_open (st : state) (s : nat) (l : list callback) :
  _exitstack (self st) = Some s ->
  stacks st !! s = Some l ->
  outcome __enter__ st = outcome __enter__ (closed st) /\
  forall st', __enter__ st = (inr tt, st') ->
    exists d v evs s',
      lstat (os st) d = None /\ lstat (os st) v = None /\
      dev (self st') = Some d /\ var (self st') = Some v /\
      h_tmpfs (os st') !! d = Some (made (h_umask (os st)) <$> device_nodes) /\
      h_trace (os st') = h_trace (os st) ++ evs /\
      EvMkdtemp d ∈ evs /\ EvMkdtemp v ∈ evs /\ EvMount d ∈ evs /\
      _exitstack (self st') = Some s' /\ s' <> s.
Proof.
  intros Hs Hl. split; [reflexivity|].
  intros st' H. apply enter_inr in H
    as (d & v & Hself & Hst & Htm & Hd & Hv & _ & mk1 & mk2 & Htr & Hmk1 & Hmk2).
  assert (Hlen : (s < length (stacks st))%nat) by (eapply lookup_lt_Some; exact Hl).
  eexists d, v, _, (S (length (stacks st))).
  split; [exact Hd|]. split; [exact Hv|].
  split; [rewrite Hself; reflexivity|].
  split; [rewrite Hself; reflexivity|].
  split; [rewrite Htm; apply lookup_insert_eq|].
  split; [exact Htr|].
  split; [rewrite !elem_of_app, !elem_of_cons; auto|].
  split; [rewrite !elem_of_app, !elem_of_cons; auto 10|].
  split; [rewrite !elem_of_app, !elem_of_cons; auto 10|].
  split; [rewrite Hself; reflexivity|lia].
Qed.

Lemma enter_on_open_witness :
  outcome __enter__ Scenario.opened = inr tt /\
  exists d,
    dev (self (after __enter__ Scenario.opened)) = Some d /\
    lstat (os Scenario.opened) d = None /\
    h_tmpfs (os (after __enter__ Scenario.opened)) !! d =
      Some (made (h_umask (os Scenario.opened)) <$> device_nodes).
Proof.
  split; [vm_compute; reflexivity|].
  destruct (enter_on_open Scenario.opened 1%nat
              [CbUmount; CbCleanup "/var/tmp/osbuild-var-p0q1";
               CbCleanup "/run/osbuild/osbuild-dev-k3x9"]) as [_ H].
  - vm_compute. reflexivity.
  - vm_compute. reflexivity.
  - destruct (H (after __enter__ Scenario.opened)) as
      (d & v & evs & s' & Hfresh & _ & Hd & _ & Hn & _).
    + vm_compute. reflexivity.
    + exists d. auto.
Defined.

Lemma enter_on_open_accepted : ~ refuses_reopen Scenario.opened.
Proof. intros [[e He] _]. vm_compute in He. discriminate He. Qed.

(** C1.  The kernel refuses the second device node.  [__enter__] raises
    that very error, and by then it has unmounted the tmpfs and removed the
    data directory and the device directory, in this order. But the object
    is not closed: [_exitstack] refers to the drained stack, [dev] and
    [var] name the directories that are gone, [run] finds an active
    context and spawns [bwrap], and [register_api] enters the endpoint at
    once. *)
Theorem enter_failure_not_closed :
  let st0 := Scenario.on (with_denied Scenario.no_null Scenario.h0) in
  let st := after __enter__ st0 in
  outcome __enter__ st0 = inl (OSError EPERM "/run/osbuild/osbuild-dev-k3x9/null") /\
  h_tmpfs (os st) = ∅ /\
  lstat (os st) "/run/osbuild/osbuild-dev-k3x9" = None /\
  lstat (os st) "/var/tmp/osbuild-var-p0q1" = None /\
  filter (fun e => is_release e = true) (h_trace (os st)) =
    [EvUmount "/run/osbuild/osbuild-dev-k3x9";
     EvRmtree "/var/tmp/osbuild-var-p0q1";
     EvRmtree "/run/osbuild/osbuild-dev-k3x9"] /\
  ~ left_closed st /\
  _exitstack (self st) = Some 0%nat /\ stacks st = [[]] /\
  dev (self st) = Some "/run/osbuild/osbuild-dev-k3x9" /\
  var (self st) = Some "/var/tmp/osbuild-var-p0q1" /\
  (exists r, outcome (run ["true"] None None) st = inr r) /\
  length (spawned (h_trace (os (after (run ["true"] None None) st)))) = 1%nat /\
  stacks (after (register_api Scenario.remoteloop) st) = [[CbApi Scenario.remoteloop]].
Proof.
  intros st0 st. repeat split; try (vm_compute; reflexivity).
  - unfold left_closed. vm_compute. discriminate.
  - vm_compute. eauto.
Qed.

(** * Further properties *)

(** ** Unwinding an exit stack *)




Lemma try_err {A} (m : M A) st e st' :
  m st = (inl e, st') -> try m st = (inr (inl e), st').
Proof. intros H. unfold try. rewrite H. reflexivity. Qed.















(** ** [run] and the environment *)













(** ** Endpoints *)




(** X5.  An endpoint whose context cannot be entered is still
    registered.  On a closed environment [register_api] accepts it
    without a word; on an open one it raises the endpoint's error, after
    having recorded the endpoint.  Either way every [__enter__] from then
    on fails. *)
Theorem unenterable_endpoint (st : state) (a : api) :
  enter_ok a = false ->
  a ∈ _apis (self (after (register_api a) st)) /\
  outcome (register_api a) st =
    match _exitstack (self st) with
    | Some _ => inl (EndpointError (endpoint a))
    | None => inr tt
    end /\
  (forall st', a ∈ _apis (self st') -> exists e, outcome __enter__ st' = inl e).
Proof.
  intros Ha. split; [|split].
  - rewrite register_api_self. cbn. apply elem_of_app. right. apply list_elem_of_here.
  - rewrite register_api_outcome, Ha. reflexivity.
  - intros st' Hin. unfold outcome.
    destruct (__enter__ st') as [[e|[]] st1] eqn:E; [eauto|].
    apply enter_inr in E as (d & v & _ & _ & _ & _ & _ & Hall & _).
    rewrite Forall_forall in Hall. apply Hall in Hin. congruence.
Qed.

Lemma unenterable_endpoint_witness :
  outcome (register_api Cases.broken) Scenario.fresh = inr tt /\
  outcome (register_api Cases.broken) Scenario.opened = inl (EndpointError "sources") /\
  exists e, outcome __enter__ (after (register_api Cases.broken) Scenario.fresh) = inl e.
Proof.
  destruct (unenterable_endpoint Scenario.fresh Cases.broken eq_refl) as (Hin & Ho & Hen).
  destruct (unenterable_endpoint Scenario.opened Cases.broken eq_refl) as (_ & Ho' & _).
  split; [exact Ho|]. split; [exact Ho'|]. apply Hen. exact Hin.
Defined.

(** ** Closing *)

Lemma stacks_ret {A} (x : A) : keeps_stacks (ret x).
Proof. intros st. reflexivity. Qed.

Lemma stacks_raise {A} e : keeps_stacks (@raise A e).
Proof. intros st. reflexivity. Qed.

Lemma stacks_gets {A} (f : BuildRoot -> A) : keeps_stacks (gets f).
Proof. intros st. reflexivity. Qed.

Lemma stacks_host : keeps_stacks host_.
Proof. intros st. reflexivity. Qed.

Lemma stacks_perform f : keeps_stacks (perform f).
Proof. intros st. reflexivity. Qed.

Lemma stacks_bind {A B} (m : M A) (k : A -> M B) :
  keeps_stacks m -> (forall x, keeps_stacks (k x)) -> keeps_stacks (bind m k).
Proof.
  intros Hm Hk st. unfold bind. specialize (Hm st).
  destruct (m st) as [[e|x] st1]; simpl in *; [exact Hm|].
  rewrite Hk. exact Hm.
Qed.

Lemma stacks_call cb : keeps_stacks (call cb).
Proof.
  unfold call, rmtree, umount_lazy, api_exit.
  repeat first
    [ apply stacks_ret | apply stacks_raise | apply stacks_gets | apply stacks_host
    | apply stacks_perform
    | apply stacks_bind; [|intros ?]
    | match goal with
      | |- keeps_stacks (if ?c then _ else _) => destruct c
      | |- keeps_stacks (match ?x with _ => _ end) => destruct x
      end ].
Qed.

Lemma unwind_drains s cbs :
  forall st raised,
    stacks (snd (unwind s cbs raised st)) =
      match cbs with
      | [] => stacks st
      | _ => <[s := []]> (stacks st)
      end.
Proof.
  induction cbs as [|cb below IH]; intros st raised; [reflexivity|].
  cbn [unwind]. unfold bind at 1, set_callbacks.
  unfold bind at 1, try.
  pose proof (stacks_call cb (on_stacks <[s := below]> st)) as Hc.
  destruct (call cb (on_stacks <[s := below]> st)) as [r st1]. cbn [snd] in Hc.
  rewrite IH, Hc. cbn [stacks on_stacks].
  destruct below; [reflexivity|]. apply list_insert_insert_eq.
Qed.

Lemma es_exit_drains s cbs st :
  stacks st !! s = Some cbs ->
  stacks (snd (es_exit s st)) !! s = Some [].
Proof.
  intros Hs. unfold es_exit, bind, callbacks_of. rewrite Hs. cbn [default from_option id].
  pose proof (unwind_drains s cbs st None) as Hu.
  destruct (unwind s cbs None st) as [[e|raised] st1]; cbn [snd] in *.
  - rewrite Hu. destruct cbs; [exact Hs|].
    apply list_lookup_insert_eq. eapply lookup_lt_Some. exact Hs.
  - assert (Hst : stacks st1 !! s = Some []).
    { rewrite Hu. destruct cbs; [exact Hs|].
      apply list_lookup_insert_eq. eapply lookup_lt_Some. exact Hs. }
    destruct raised; exact Hst.
Qed.

(** X6.  [__exit__] is best effort and cannot be repeated.  Whatever
    fails while the stack is unwound, every callback has been popped by
    the time [__exit__] raises; the object still refers to the stack, now
    empty, so the environment counts as open; and a second [__exit__]
    returns normally, does nothing, and closes it. *)
Theorem exit_failed_then_retried (st : state) (s : nat) (cbs : list callback)
    (e : exn) :
  _exitstack (self st) = Some s ->
  stacks st !! s = Some cbs ->
  outcome __exit__ st = inl e ->
  is_open (after __exit__ st) /\
  stacks (after __exit__ st) !! s = Some [] /\
  __exit__ (after __exit__ st) = (inr tt, closed (after __exit__ st)).
Proof.
  intros Hs Hst He.
  assert (Hself : self (after __exit__ st) = self st)
    by (rewrite exit_self, He; reflexivity).
  assert (Hdr : stacks (after __exit__ st) !! s = Some []).
  { pose proof (es_exit_drains s cbs st Hst) as Hd.
    unfold after, __exit__.
    rewrite (bind_ok (the_exitstack "close") _ st s st)
      by (unfold the_exitstack, bind, gets; rewrite Hs; reflexivity).
    unfold bind. destruct (es_exit s st) as [[e'|[]] st1]; exact Hd. }
  split; [unfold is_open; rewrite Hself, Hs; eauto|]. split; [exact Hdr|].
  remember (after __exit__ st) as st1 eqn:Hst1. clear Hst1.
  unfold __exit__.
  rewrite (bind_ok (the_exitstack "close") _ _ s st1)
    by (unfold the_exitstack, bind, gets; rewrite Hself, Hs; reflexivity).
  rewrite (bind_ok (es_exit s) _ _ tt st1)
    by (apply es_exit_empty; rewrite Hdr; reflexivity).
  reflexivity.
Qed.

Lemma exit_failed_then_retried_witness :
  let st := on_host (with_denied Cases.no_umount) Scenario.opened in
  outcome __exit__ st = inl (OSError EBUSY "/run/osbuild/osbuild-dev-k3x9") /\
  is_open (after __exit__ st) /\
  __exit__ (after __exit__ st) = (inr tt, closed (after __exit__ st)).
Proof.
  intros st.
  assert (He : outcome __exit__ st = inl (OSError EBUSY "/run/osbuild/osbuild-dev-k3x9"))
    by (vm_compute; reflexivity).
  destruct (exit_failed_then_retried st 1%nat
              [CbUmount; CbCleanup "/var/tmp/osbuild-var-p0q1";
               CbCleanup "/run/osbuild/osbuild-dev-k3x9"] _
              ltac:(vm_compute; reflexivity) ltac:(vm_compute; reflexivity) He)
    as (Ho & _ & Hr).
  auto.
Defined.

(** X7.  After [__exit__] has returned, [run] refuses to work: it raises
    [RuntimeError("No active context")], composes no command, spawns
    nothing and leaves the state untouched.  The same holds of an object
    that was never entered. *)
Theorem run_after_close (st : state) (argv : list string)
    (binds readonly_binds : option (list string)) :
  outcome __exit__ st = inr tt ->
  run argv binds readonly_binds (after __exit__ st) =
    (inl (RuntimeError "No active context"), after __exit__ st) /\
  forall root runner libdir var rundir,
    let new := {| self := __init__ root runner libdir var rundir;
                  stacks := stacks st; os := os st |} in
    run argv binds readonly_binds new = (inl (RuntimeError "No active context"), new).
Proof.
  intros Hok. split; [|reflexivity].
  assert (Hself : _exitstack (self (after __exit__ st)) = None)
    by (rewrite exit_self, Hok; reflexivity).
  remember (after __exit__ st) as st1 eqn:Hst1. clear Hst1.
  unfold run, bind, gets. rewrite Hself. reflexivity.
Qed.

Lemma run_after_close_witness :
  run ["true"] None None (after __exit__ Scenario.opened) =
    (inl (RuntimeError "No active context"), after __exit__ Scenario.opened).
Proof.
  apply (run_after_close Scenario.opened ["true"] None None).
  vm_compute. reflexivity.
Defined.

(** ** Registrations *)

Lemma apis_update f l :
  (forall b, _apis (f b) = _apis b) ->
  preserves (fun st => _apis (self st) = l) (update f).
Proof. intros Hf st H. cbn. rewrite Hf. exact H. Qed.

Lemma apis_enter_body l : preserves (fun st => _apis (self st) = l) enter_body.
Proof.
  unfold enter_body.
  repeat first
    [ apply apis_update; intros b; reflexivity
    | apply (preserves_keeps (fun b => _apis b = l)); solve [keeps]
    | apply preserves_for_each; intros ?
    | apply preserves_bind; [|intros ?] ].
Qed.

Lemma enter_apis st : _apis (self (after __enter__ st)) = _apis (self st).
Proof.
  unfold after, __enter__.
  assert (H : preserves (fun st' => _apis (self st') = _apis (self st))
                (with_ (length (stacks st)) enter_body)).
  { apply preserves_with; [apply apis_enter_body|].
    apply (preserves_keeps (fun b => _apis b = _apis (self st))). keeps. }
  unfold bind, ExitStack, update. simpl. apply H. reflexivity.
Qed.

Lemma exit_apis st : _apis (self (after __exit__ st)) = _apis (self st).
Proof. rewrite exit_self. destruct (outcome __exit__ st); reflexivity. Qed.

(** X8.  Registrations are for good.  [__enter__], [__exit__] and [run]
    never change the list of registered endpoints, whatever their
    outcome, and [register_api] only ever appends to it: an endpoint once
    registered stays registered, in its place, across any number of
    open and close cycles. *)
Theorem registrations_persist (st : state) :
  _apis (self (after __enter__ st)) = _apis (self st) /\
  _apis (self (after __exit__ st)) = _apis (self st) /\
  (forall argv binds ro, _apis (self (after (run argv binds ro) st)) = _apis (self st)) /\
  (forall a, _apis (self (after (register_api a) st)) = _apis (self st) ++ [a]).
Proof.
  split; [apply enter_apis|]. split; [apply exit_apis|]. split.
  - intros argv binds ro. unfold after. rewrite keeps_run. reflexivity.
  - intros a. rewrite register_api_self. reflexivity.
Qed.

(** X9.  Every registered endpoint is bound in every [run] that returns:
    the command line carries, after the creation of [/run/osbuild/api],
    the bind of its socket address to [/run/osbuild/api/<name>], followed
    by the binds of the endpoints registered after it, the separator, the
    runner and the arguments. *)
Theorem registered_endpoint_bound (st : state) (a : api)
    (earlier later : list api) (argv : list string)
    (binds readonly_binds : option (list string)) (r : CompletedBuild) (st' : state) :
  _apis (self st) = earlier ++ a :: later ->
  run argv binds readonly_binds st = (inr r, st') ->
  exists before,
    args (process r) =
      before ++ ["--dir"; "/run/osbuild/api"] ++ flat_map api_bind earlier ++
      ["--bind"; socket_address a; "/run/osbuild/api/" +:+ endpoint a] ++
      flat_map api_bind later ++
      ["--"; "/run/osbuild/lib/runners/" +:+ _runner (self st)] ++ argv.
Proof.
  intros Ha Hrun.
  apply run_inr in Hrun as (cmd & c & txts & last & _ & Hc & _ & _ & _ & -> & _).
  unfold command, mounts_of in Hc.
  destruct (lib_mounts (self st) (os st)) as [e|lib]; [discriminate|].
  apply (inj inr) in Hc. subst cmd. cbn [args process].
  exists (bwrap ++ import_mounts (self st) (os st) ++ system_mounts (self st) ++ lib ++
          caller_mounts binds readonly_binds).
  unfold api_mounts. rewrite Ha, flat_map_app. cbn [flat_map].
  rewrite <- !app_assoc. reflexivity.
Qed.

Lemma registered_endpoint_bound_witness :
  exists r st' before,
    run ["true"] None None Cases.two_opened = (inr r, st') /\
    args (process r) =
      before ++ ["--dir"; "/run/osbuild/api"] ++
      ["--bind"; "/run/osbuild/api-1/sock"; "/run/osbuild/api/remoteloop"] ++
      ["--bind"; "/run/osbuild/api-3/sock"; "/run/osbuild/api/lorax"] ++
      ["--"; "/run/osbuild/lib/runners/org.osbuild.linux"; "true"].
Proof.
  destruct (run ["true"] None None Cases.two_opened) as [[e|r] st'] eqn:E.
  - vm_compute in E. discriminate E.
  - exists r, st'.
    destruct (registered_endpoint_bound Cases.two_opened Scenario.remoteloop
                [] [Cases.lorax] ["true"] None None r st') as (before & H).
    + vm_compute. reflexivity.
    + exact E.
    + exists before. split; [reflexivity|]. rewrite H. reflexivity.
Defined.

(** ** Output *)

(** X10.  On an open environment whose command can be composed and
    spawned, if each read of the child's output decodes on its own and so
    does what [communicate()] returns, then [run] returns.  Its output is
    the decoding of all the bytes the child wrote, [stdout] and [stderr]
    both show it, the return code is the child's exit status, the command
    is recorded as spawned, and the texts handed to the monitor since the
    call, put end to end, are that same output. *)
Theorem run_returns_whole_output (st : state) (argv : list string)
    (binds readonly_binds : option (list string)) (cmd : list string) (c : child) :
  is_open st -> has_dirs st ->
  command (self st) (os st) argv binds readonly_binds = inr cmd ->
  h_spawn (os st) cmd = inr c ->
  Forall (fun buf => is_Some (Utf8.decode buf)) (consumed (reads c)) ->
  is_Some (Utf8.decode (rest c)) ->
  exists r st',
    run argv binds readonly_binds st = (inr r, st') /\
    Utf8.decode (emitted c) = Some (output r) /\
    stdout r = output r /\ stderr r = output r /\
    returncode r = status c /\ args (process r) = cmd /\
    spawned (h_trace (os st')) = spawned (h_trace (os st)) ++ [cmd] /\
    concat (logged (h_trace (os st'))) = concat (logged (h_trace (os st))) ++ output r.
Proof.
  intros Ho Hd Hc Hsp Hall Hrest.
  destruct (run_total argv binds readonly_binds st cmd c Ho Hc Hd Hsp Hall Hrest)
    as (r & st' & Hrun).
  exists r, st'. split; [exact Hrun|].
  apply run_inr in Hrun
    as (cmd' & c' & txts & last & _ & Hc' & Hsp' & Hdec & Hlast & -> & ->).
  rewrite Hc in Hc'. apply (inj inr) in Hc'. subst cmd'.
  rewrite Hsp in Hsp'. apply (inj inr) in Hsp'. subst c'.
  split.
  { unfold emitted. simpl. apply decode_app; [apply decode_concat; exact Hdec|exact Hlast]. }
  repeat split.
  - cbn [os on_host extend h_trace]. unfold spawned.
    rewrite omap_app. f_equal. cbn [omap list_omap]. f_equal.
    rewrite omap_app. cbn [omap list_omap]. rewrite app_nil_r.
    clear. induction txts as [|t l IH]; [reflexivity|exact IH].
  - cbn [os on_host extend h_trace output].
    rewrite logged_app. change (EvSpawn cmd :: ?l) with ([EvSpawn cmd] ++ l).
    rewrite !logged_app, logged_logs. simpl. rewrite !concat_app. simpl.
    rewrite app_nil_r. reflexivity.
Qed.

Lemma run_returns_whole_output_witness :
  let st := on_host (with_spawn (fun _ => inr Cases.plain_child)) Scenario.opened in
  exists r st',
    run ["true"] None None st = (inr r, st') /\
    output r = [111; 107; 10; 100; 111; 110; 101; 10] /\
    returncode r = 3 /\
    concat (logged (h_trace (os st'))) =
      concat (logged (h_trace (os st))) ++ [111; 107; 10; 100; 111; 110; 101; 10].
Proof.
  intros st.
  destruct (command (self st) (os st) ["true"] None None) as [e|cmd] eqn:Hc;
    [vm_compute in Hc; discriminate Hc|].
  destruct (run_returns_whole_output st ["true"] None None cmd Cases.plain_child)
    as (r & st' & Hrun & Hout & _ & _ & Hrc & _ & _ & Hlog).
  - vm_compute. eauto.
  - split; vm_compute; eauto.
  - exact Hc.
  - reflexivity.
  - cbn [Cases.plain_child reads consumed].
    repeat (apply Forall_cons; split; [vm_compute; eauto|]). apply Forall_nil. exact I.
  - vm_compute. eauto.
  - exists r, st'. split; [exact Hrun|].
    assert (Hem : Utf8.decode (emitted Cases.plain_child)
                  = Some [111; 107; 10; 100; 111; 110; 101; 10])
      by (vm_compute; reflexivity).
    rewrite Hem in Hout. apply (inj Some) in Hout.
    rewrite <- Hout in Hlog.
    split; [symmetry; exact Hout|]. split; [exact Hrc|exact Hlog].
Defined.

Lemma decode_ascii bs : ascii_bytes bs -> Utf8.decode bs = Some bs.
Proof.
  induction 1 as [|b bs Hb _ IH]; [reflexivity|].
  cbn [Utf8.decode]. unfold Utf8.within.
  replace (0 <=? b) with true by (symmetry; apply Z.leb_le; lia).
  replace (b <=? 127) with true by (symmetry; apply Z.leb_le; lia).
  cbn [andb]. rewrite IH. reflexivity.
Qed.

Lemma consumed_sublist pipe : concat (consumed pipe) `sublist_of` concat pipe.
Proof.
  induction pipe as [|buf later IH]; [constructor|].
  destruct buf as [|b0 buf]; [apply sublist_nil_l|].
  change (consumed ((b0 :: buf) :: later)) with ((b0 :: buf) :: consumed later).
  cbn [concat]. apply sublist_app; [reflexivity|exact IH].
Qed.

Lemma consumed_ascii pipe :
  ascii_bytes (concat pipe) ->
  Forall (fun buf => is_Some (Utf8.decode buf)) (consumed pipe) /\
  ascii_bytes (concat (consumed pipe)).
Proof.
  induction pipe as [|buf later IH]; intros H; [split; constructor|].
  cbn [concat] in H. apply Forall_app in H as [Hb Hl].
  destruct buf as [|b0 buf]; [split; constructor|].
  change (consumed ((b0 :: buf) :: later)) with ((b0 :: buf) :: consumed later).
  destruct (IH Hl) as [IH1 IH2]. split.
  - constructor; [rewrite (decode_ascii _ Hb); eauto|exact IH1].
  - cbn [concat]. apply Forall_app. split; assumption.
Qed.

(** X11.  For a child that writes nothing but ASCII, it does not matter
    how its output is cut into reads: on an open environment whose
    command can be composed and spawned, [run] returns, and its output is
    the bytes the child wrote, one character each. *)
Theorem run_ascii_any_chunking (st : state) (argv : list string)
    (binds readonly_binds : option (list string)) (cmd : list string) (c : child) :
  is_open st -> has_dirs st ->
  command (self st) (os st) argv binds readonly_binds = inr cmd ->
  h_spawn (os st) cmd = inr c ->
  ascii_bytes (concat (reads c) ++ rest c) ->
  exists r st',
    run argv binds readonly_binds st = (inr r, st') /\
    output r = emitted c /\ returncode r = status c.
Proof.
  intros Ho Hd Hc Hsp Hascii. apply Forall_app in Hascii as [Hreads Hrest].
  destruct (consumed_ascii _ Hreads) as [Hall Hcons].
  destruct (run_total argv binds readonly_binds st cmd c Ho Hc Hd Hsp Hall)
    as (r & st' & Hrun); [rewrite (decode_ascii _ Hrest); eauto|].
  exists r, st'. split; [exact Hrun|].
  apply run_inr in Hrun
    as (cmd' & c' & txts & last & _ & Hc' & Hsp' & Hdec & Hlast & -> & _).
  rewrite Hc in Hc'. apply (inj inr) in Hc'. subst cmd'.
  rewrite Hsp in Hsp'. apply (inj inr) in Hsp'. subst c'.
  split; [|reflexivity]. cbn [output].
  assert (E : Utf8.decode (emitted c) = Some (concat txts ++ last))
    by (apply decode_app; [apply decode_concat; exact Hdec|exact Hlast]).
  rewrite decode_ascii in E by (apply Forall_app; split; assumption).
  injection E as <-. reflexivity.
Qed.

Lemma run_ascii_any_chunking_witness :
  let st := on_host (with_spawn (fun _ => inr Cases.plain_child)) Scenario.opened in
  exists r st',
    run ["true"] None None st = (inr r, st') /\
    output r = [111; 107; 10; 100; 111; 110; 101; 10] /\ returncode r = 3.
Proof.
  intros st.
  destruct (command (self st) (os st) ["true"] None None) as [e|cmd] eqn:Hc;
    [vm_compute in Hc; discriminate Hc|].
  apply (run_ascii_any_chunking st ["true"] None None cmd Cases.plain_child).
  - vm_compute. eauto.
  - split; vm_compute; eauto.
  - exact Hc.
  - reflexivity.
  - unfold ascii_bytes. cbn [Cases.plain_child reads rest concat app].
    repeat (apply Forall_cons; split; [lia|]). apply Forall_nil. exact I.
Defined.


(** ** A failed [__enter__] *)





























(** ** The directories of [__enter__] in [run] *)

(** X13.  What [__enter__] has made is what [run] hands to the child: in
    a [run] that returns after a successful [__enter__], the device
    directory, the tmpfs that holds the six nodes, is bound at [/dev], and
    the data directory at [/var], both made by that [__enter__]; between
    them come the temporary file systems. *)
Theorem run_binds_dev_and_var (st st1 : state) (argv : list string)
    (binds readonly_binds : option (list string)) (r : CompletedBuild) (st2 : state) :
  __enter__ st = (inr tt, st1) ->
  run argv binds readonly_binds st1 = (inr r, st2) ->
  exists d v before later,
    lstat (os st) d = None /\ lstat (os st) v = None /\
    dev (self st1) = Some d /\ var (self st1) = Some v /\
    h_tmpfs (os st1) !! d = Some (made (h_umask (os st)) <$> device_nodes) /\
    args (process r) =
      before ++
      ["--dev-bind"; d; "/dev"] ++
      ["--tmpfs"; "/dev/shm"; "--dir"; "/etc"; "--tmpfs"; "/run"; "--tmpfs"; "/tmp"] ++
      ["--bind"; v; "/var"] ++
      later.
Proof.
  intros He Hr.
  apply enter_inr in He as (d & v & Hself & _ & Htm & Hd & Hv & _).
  apply run_inr in Hr as (cmd & c & txts & last & _ & Hc & _ & _ & _ & -> & _).
  unfold command, mounts_of in Hc.
  destruct (lib_mounts (self st1) (os st1)) as [e|lib]; [discriminate|].
  apply (inj inr) in Hc. subst cmd.
  exists d, v.
  exists (bwrap ++ import_mounts (self st1) (os st1) ++
          ["--symlink"; "usr/lib"; "/lib"; "--symlink"; "usr/lib64"; "/lib64";
           "--symlink"; "usr/bin"; "/bin"; "--symlink"; "usr/sbin"; "/sbin"]).
  exists (["--proc"; "/proc"; "--ro-bind"; "/sys"; "/sys";
           "--ro-bind-try"; "/sys/fs/selinux"; "/sys/fs/selinux";
           "--ro-bind-try"; Path.join (_rootdir (self st1)) "etc/mke2fs.conf";
           "/etc/mke2fs.conf"] ++
          lib ++ caller_mounts binds readonly_binds ++ api_mounts (self st1) ++
          ["--"; "/run/osbuild/lib/runners/" +:+ _runner (self st1)] ++ argv).
  split; [exact Hd|]. split; [exact Hv|].
  split; [rewrite Hself; reflexivity|]. split; [rewrite Hself; reflexivity|].
  split; [rewrite Htm; apply lookup_insert_eq|].
  cbn [args process]. unfold system_mounts.
  replace (dev (self st1)) with (Some d) by (rewrite Hself; reflexivity).
  replace (var (self st1)) with (Some v) by (rewrite Hself; reflexivity).
  cbn [str_or_none default from_option id].
  rewrite <- !app_assoc. reflexivity.
Qed.

Lemma run_binds_dev_and_var_witness :
  exists r st2 before later,
    run ["true"] None None Scenario.opened = (inr r, st2) /\
    args (process r) =
      before ++
      ["--dev-bind"; "/run/osbuild/osbuild-dev-k3x9"; "/dev"] ++
      ["--tmpfs"; "/dev/shm"; "--dir"; "/etc"; "--tmpfs"; "/run"; "--tmpfs"; "/tmp"] ++
      ["--bind"; "/var/tmp/osbuild-var-p0q1"; "/var"] ++
      later.
Proof.
  destruct (run ["true"] None None Scenario.opened) as [[e|r] st2] eqn:E.
  - vm_compute in E. discriminate E.
  - destruct (run_binds_dev_and_var Scenario.fresh Scenario.opened ["true"] None None r st2)
      as (d & v & before & later & _ & _ & Hd & Hv & _ & Hargs).
    + vm_compute. reflexivity.
    + exact E.
    + vm_compute in Hd. apply (inj Some) in Hd. subst d.
      vm_compute in Hv. apply (inj Some) in Hv. subst v.
      exists r, st2, before, later. split; [reflexivity|exact Hargs].
Defined.
